(** * VideoEncoder: a shallow embedding of [src/components/VideoEncoder.tsx]

    The component is a React function component around one process-wide
    ffmpeg.wasm engine.  The embedding keeps its shape:

    - [JsNumber]   JavaScript numbers, as exact decimal fractions;
    - [JsString]   the two string methods the component calls;
    - the pure helpers [validateCustomSettings] and [getScalingFilter], and
      the effect body of [useEncodingTime];
    - [handleEncode], an async function, as the state machine its [await]s
      cut it into: one synchronous segment per suspension point, each a
      function on [World];
    - React itself as [commit]: after every handler segment the component
      re-renders and the effects whose dependencies changed run;
    - the handlers of the form and of the engine's events as [handle].

    Left out: the [beforeunload] listener, the scrolling of the log view,
    the strategy previews and [formatTime], none of which touches the state
    modelled here. *)

From Stdlib Require Import ZArith QArith Qround Qminmax Bool List Lia.
From Stdlib Require Import Strings.String Strings.Ascii Strings.Byte.
From Stdlib Require Import Numbers.DecimalString Numbers.DecimalPos Numbers.DecimalN.
Import ListNotations.

Local Open Scope string_scope.
Local Open Scope Z_scope.

(* ------------------------------------------------------------------ *)
(** ** JavaScript numbers *)

(** Every number the component handles is typed into a [NumberInput], is a
    millisecond timestamp, or is a fraction reported by the engine.  They
    are modelled as exact decimal fractions [mant / 10^scale]; IEEE
    rounding, [NaN] and the infinities are outside the model.  Comparison
    with the constants of the file (100, 1920, 0.5, 10, 0, 1000) is exact
    for them, and [toString] is the decimal expansion JavaScript prints
    for such values between 1e-6 and 1e21. *)
Module JsNumber.

Record number : Type := Num { mant : Z; scale : nat }.

Definition ofZ (z : Z) : number := Num z 0.

Definition pow10 (k : nat) : Z := 10 ^ Z.of_nat k.

(** The rational a number stands for. *)
Definition toQ (n : number) : Q := mant n # Z.to_pos (pow10 (scale n)).

(** [a < b], [a > b], [a === b] on the common denominator. *)
Definition ltb (a b : number) : bool :=
  mant a * pow10 (scale b) <? mant b * pow10 (scale a).
Definition gtb (a b : number) : bool := ltb b a.
Definition eqb (a b : number) : bool :=
  mant a * pow10 (scale b) =? mant b * pow10 (scale a).

(** [a - b]. *)
Definition sub (a b : number) : number :=
  Num (mant a * pow10 (scale b) - mant b * pow10 (scale a)) (scale a + scale b).

(** [Math.floor(a / b)]; the callers guard [b > 0]. *)
Definition floorDiv (a b : number) : number :=
  ofZ ((mant a * pow10 (scale b)) / (mant b * pow10 (scale a))).

(** [Math.max(a, b)]. *)
Definition max (a b : number) : number := if ltb a b then b else a.

(** Truthiness of a number: only 0 is falsy. *)
Definition truthy (a : number) : bool := negb (mant a =? 0).


(** Trailing zeros of the fraction are not printed. *)
Fixpoint strip (m : Z) (k : nat) : Z * nat :=
  match k with
  | O => (m, O)
  | S k' => if m mod 10 =? 0 then strip (m / 10) k' else (m, k)
  end.

Definition digits (z : Z) : string := NilZero.string_of_uint (N.to_uint (Z.to_N z)).

Fixpoint zeros (k : nat) : string :=
  match k with
  | O => ""
  | S k' => "0" ++ zeros k'
  end.

(** [Number.prototype.toString], as used by template literals. *)
Definition toString (n : number) : string :=
  let '(m, k) := strip (mant n) (scale n) in
  let a := Z.abs m in
  let sign := if m <? 0 then "-" else "" in
  let int := digits (a / pow10 k) in
  match k with
  | O => sign ++ int
  | S _ =>
      let frac := digits (a mod pow10 k) in
      sign ++ int ++ "." ++ zeros (k - String.length frac) ++ frac
  end.

End JsNumber.
Import JsNumber.

(* ------------------------------------------------------------------ *)
(** ** JavaScript strings *)

(** Strings are sequences of UTF-8 bytes.  Both methods below are called
    with ASCII patterns, for which working on bytes and working on UTF-16
    code units cut the string at the same places. *)
Module JsString.

(** [s.replace(pat, rep)] with a string pattern: the first occurrence only
    (the replacement text used by the component has no [$] pattern). *)
Fixpoint replace (pat rep s : string) : string :=
  if String.prefix pat s
  then rep ++ String.substring (String.length pat) (String.length s - String.length pat) s
  else match s with
       | EmptyString => EmptyString
       | String c s' => String c (replace pat rep s')
       end.

(** [s.split(sep)] for a one-character separator. *)
Fixpoint split (sep : ascii) (s : string) : list string :=
  match s with
  | EmptyString => [EmptyString]
  | String c s' =>
      if Ascii.eqb c sep then EmptyString :: split sep s'
      else match split sep s' with
           | [] => [String c EmptyString]
           | piece :: rest => String c piece :: rest
           end
  end.

(** The first [n] characters of [rest] followed by [pad] repeated. *)
Fixpoint fill (n : nat) (pad rest : string) : string :=
  match n with
  | O => EmptyString
  | S n' =>
      match rest with
      | String c r => String c (fill n' pad r)
      | EmptyString =>
          match pad with
          | String c r => String c (fill n' pad r)
          | EmptyString => EmptyString
          end
      end
  end.


End JsString.

(* ------------------------------------------------------------------ *)
(** ** Types and constants of the component *)

Inductive ScalingStrategy : Type := cover | contain | fill.

Record Preset : Type := mkPreset {
  name : string;
  resolution : option number;
  bitrate : option string
}.

Definition CUSTOM : string := "自定义".

Definition PRESETS : list Preset :=
  [ mkPreset "标清方形" (Some (ofZ 480)) (Some "1M");
    mkPreset "高清方形" (Some (ofZ 720)) (Some "1.5M");
    mkPreset CUSTOM None None ].

Definition MIN_RESOLUTION : number := ofZ 100.
Definition MAX_RESOLUTION : number := ofZ 1920.
Definition MIN_BITRATE : number := Num 5 1.
Definition MAX_BITRATE : number := ofZ 10.
Definition DEFAULT_RESOLUTION : number := ofZ 480.
Definition DEFAULT_BITRATE : number := ofZ 1.

(** [validateCustomSettings]: [None] is JavaScript's [null]. *)
Definition validateCustomSettings (resolution bitrate : number) : option string :=
  if ltb resolution MIN_RESOLUTION || gtb resolution MAX_RESOLUTION then
    Some ("分辨率必须在" ++ toString MIN_RESOLUTION ++ "到" ++ toString MAX_RESOLUTION ++ "之间")
  else if ltb bitrate MIN_BITRATE || gtb bitrate MAX_BITRATE then
    Some ("比特率必须在" ++ toString MIN_BITRATE ++ "到" ++ toString MAX_BITRATE ++ " Mbps之间")
  else None.

(** The [error] prop of the two [NumberInput]s of the custom card. *)
Definition resolutionFieldError (customResolution : number) : option string :=
  if ltb customResolution MIN_RESOLUTION || gtb customResolution MAX_RESOLUTION
  then Some ("分辨率必须在" ++ toString MIN_RESOLUTION ++ "到" ++ toString MAX_RESOLUTION ++ "之间")
  else None.

Definition bitrateFieldError (customBitrate : number) : option string :=
  if ltb customBitrate MIN_BITRATE || gtb customBitrate MAX_BITRATE
  then Some ("比特率必须在" ++ toString MIN_BITRATE ++ "到" ++ toString MAX_BITRATE ++ " Mbps之间")
  else None.


(** [getScalingFilter]; the two values the callback closes over are
    arguments here. *)
Definition getScalingFilter
    (scalingStrategy : ScalingStrategy) (backgroundColor : string)
    (resolution : number) : string :=
  match scalingStrategy with
  | cover =>
      "crop=min(iw\,ih):min(iw\,ih),scale=" ++ toString resolution ++ ":" ++ toString resolution
  | _ =>
      "scale=" ++ toString resolution ++ ":" ++ toString resolution
      ++ ":force_original_aspect_ratio=decrease,pad="
      ++ toString resolution ++ ":" ++ toString resolution
      ++ ":-1:-1:color=" ++ JsString.replace "#" "0x" backgroundColor
  end.

(* ------------------------------------------------------------------ *)
(** ** Component state *)

Record File : Type := mkFile { fileName : string; fileData : list byte }.

(** The [useState] cells of [VideoEncoder], of [useFFmpeg] and of
    [useEncodingTime], and the one [useRef] cell, as of one render. *)
Record State : Type := mkState {
  selectedPreset : string;
  customResolution : number;
  customBitrate : number;
  file : option File;
  isEncoding : bool;
  scalingStrategy : ScalingStrategy;
  backgroundColor : string;
  encodedVideoUrl : option string;
  loaded : bool;
  progress : number;
  logs : list string;
  elapsedTime : number;
  estimatedTime : number;
  startTimeRef : option number
}.

Definition setSelectedPreset (v : string) (s : State) : State :=
  mkState v (customResolution s) (customBitrate s) (file s) (isEncoding s)
          (scalingStrategy s) (backgroundColor s) (encodedVideoUrl s) (loaded s) (progress s)
          (logs s) (elapsedTime s) (estimatedTime s) (startTimeRef s).
Definition setCustomResolution (v : number) (s : State) : State :=
  mkState (selectedPreset s) v (customBitrate s) (file s) (isEncoding s)
          (scalingStrategy s) (backgroundColor s) (encodedVideoUrl s) (loaded s) (progress s)
          (logs s) (elapsedTime s) (estimatedTime s) (startTimeRef s).
Definition setCustomBitrate (v : number) (s : State) : State :=
  mkState (selectedPreset s) (customResolution s) v (file s) (isEncoding s)
          (scalingStrategy s) (backgroundColor s) (encodedVideoUrl s) (loaded s) (progress s)
          (logs s) (elapsedTime s) (estimatedTime s) (startTimeRef s).
Definition setFile (v : option File) (s : State) : State :=
  mkState (selectedPreset s) (customResolution s) (customBitrate s) v (isEncoding s)
          (scalingStrategy s) (backgroundColor s) (encodedVideoUrl s) (loaded s) (progress s)
          (logs s) (elapsedTime s) (estimatedTime s) (startTimeRef s).
Definition setIsEncoding (v : bool) (s : State) : State :=
  mkState (selectedPreset s) (customResolution s) (customBitrate s) (file s) v
          (scalingStrategy s) (backgroundColor s) (encodedVideoUrl s) (loaded s) (progress s)
          (logs s) (elapsedTime s) (estimatedTime s) (startTimeRef s).
Definition setScalingStrategy (v : ScalingStrategy) (s : State) : State :=
  mkState (selectedPreset s) (customResolution s) (customBitrate s) (file s) (isEncoding s)
          v (backgroundColor s) (encodedVideoUrl s) (loaded s) (progress s)
          (logs s) (elapsedTime s) (estimatedTime s) (startTimeRef s).
Definition setBackgroundColor (v : string) (s : State) : State :=
  mkState (selectedPreset s) (customResolution s) (customBitrate s) (file s) (isEncoding s)
          (scalingStrategy s) v (encodedVideoUrl s) (loaded s) (progress s)
          (logs s) (elapsedTime s) (estimatedTime s) (startTimeRef s).
Definition setEncodedVideoUrl (v : option string) (s : State) : State :=
  mkState (selectedPreset s) (customResolution s) (customBitrate s) (file s) (isEncoding s)
          (scalingStrategy s) (backgroundColor s) v (loaded s) (progress s)
          (logs s) (elapsedTime s) (estimatedTime s) (startTimeRef s).
Definition setLoaded (v : bool) (s : State) : State :=
  mkState (selectedPreset s) (customResolution s) (customBitrate s) (file s) (isEncoding s)
          (scalingStrategy s) (backgroundColor s) (encodedVideoUrl s) v (progress s)
          (logs s) (elapsedTime s) (estimatedTime s) (startTimeRef s).
Definition setProgress (v : number) (s : State) : State :=
  mkState (selectedPreset s) (customResolution s) (customBitrate s) (file s) (isEncoding s)
          (scalingStrategy s) (backgroundColor s) (encodedVideoUrl s) (loaded s) v
          (logs s) (elapsedTime s) (estimatedTime s) (startTimeRef s).
Definition setLogs (v : list string) (s : State) : State :=
  mkState (selectedPreset s) (customResolution s) (customBitrate s) (file s) (isEncoding s)
          (scalingStrategy s) (backgroundColor s) (encodedVideoUrl s) (loaded s) (progress s)
          v (elapsedTime s) (estimatedTime s) (startTimeRef s).
Definition setElapsedTime (v : number) (s : State) : State :=
  mkState (selectedPreset s) (customResolution s) (customBitrate s) (file s) (isEncoding s)
          (scalingStrategy s) (backgroundColor s) (encodedVideoUrl s) (loaded s) (progress s)
          (logs s) v (estimatedTime s) (startTimeRef s).
Definition setEstimatedTime (v : number) (s : State) : State :=
  mkState (selectedPreset s) (customResolution s) (customBitrate s) (file s) (isEncoding s)
          (scalingStrategy s) (backgroundColor s) (encodedVideoUrl s) (loaded s) (progress s)
          (logs s) (elapsedTime s) v (startTimeRef s).
Definition setStartTimeRef (v : option number) (s : State) : State :=
  mkState (selectedPreset s) (customResolution s) (customBitrate s) (file s) (isEncoding s)
          (scalingStrategy s) (backgroundColor s) (encodedVideoUrl s) (loaded s) (progress s)
          (logs s) (elapsedTime s) (estimatedTime s) v.

(** The first render. *)
Definition initialState : State :=
  {| selectedPreset := "标清方形";            (* PRESETS[0].name *)
     customResolution := DEFAULT_RESOLUTION;
     customBitrate := DEFAULT_BITRATE;
     file := None;
     isEncoding := false;
     scalingStrategy := cover;
     backgroundColor := "#000000";
     encodedVideoUrl := None;
     loaded := false;
     progress := ofZ 0;
     logs := [];
     elapsedTime := ofZ 0;
     estimatedTime := ofZ 0;
     startTimeRef := None |}.

(* ------------------------------------------------------------------ *)
(** ** useEncodingTime *)

(** The body of the hook's effect, run with [Date.now() = now] on a render
    whose [isEncoding] and [progress] are those of [s]. *)
Definition encodingTimeEffect (now : number) (s : State) : State :=
  if isEncoding s && gtb (progress s) (ofZ 0) then
    let start := match startTimeRef s with
                 | None => now
                 | Some t => t
                 end in
    let s := setStartTimeRef (Some start) s in
    let elapsed := floorDiv (sub now start) (ofZ 1000) in
    let s := setElapsedTime elapsed s in
    if gtb (progress s) (ofZ 0)
    then setEstimatedTime (floorDiv elapsed (progress s)) s
    else s
  else if negb (isEncoding s) then
    setEstimatedTime (ofZ 0) (setElapsedTime (ofZ 0) (setStartTimeRef None s))
  else s.

(** What the hook returns. *)
Definition useEncodingTime (s : State) : number * number :=
  (elapsedTime s, estimatedTime s).

(** The remaining time the progress bar shows:
    [Math.max(estimatedTime - elapsedTime, 1)]. *)
Definition remainingTime (s : State) : number :=
  JsNumber.max (sub (estimatedTime s) (elapsedTime s)) (ofZ 1).

(* ------------------------------------------------------------------ *)
(** ** The world around the component *)

(** What the component does to the engine, the browser and the user, in
    the order it does it. *)
Inductive Effect : Type :=
| FetchFile (f : File)                                  (* fetchFile(file) *)
| FFmpegWriteFile (path : string) (data : list byte)    (* ffmpeg.writeFile *)
| FFmpegExec (args : list string)                       (* ffmpeg.exec *)
| FFmpegReadFile (path : string)                        (* ffmpeg.readFile *)
| CreateObjectURL (type : string) (data : list byte) (url : string)
| RevokeObjectURL (url : string)
| AnchorClick (href download : string)                  (* a.click() *)
| NotificationShow (title message color : string)
| ConsoleError (message : string).

(** The four [await]s of [handleEncode]. *)
Inductive Await : Type :=
| AwaitFetchFile | AwaitWriteFile | AwaitExec | AwaitReadFile.

(** A suspended invocation of [handleEncode]: the render snapshot its
    closure captured, its local [preset], and where it waits. *)
Record Job : Type := mkJob { closure : State; preset : Preset; awaiting : Await }.

(** How an awaited promise settles.  [writeFile] and [exec] fulfil with
    values the code ignores. *)
Inductive Settled : Type :=
| Fulfilled (value : list byte)
| Rejected (reason : string).

(** An object URL the browser keeps alive, with the type of its blob. *)
Record ObjectURL : Type := mkObjectURL { href : string; blobType : string }.

Record World : Type := mkWorld {
  ui : State;                  (* the state cells, pending updates applied *)
  jobs : list Job;             (* invocations of handleEncode in flight *)
  liveUrls : list ObjectURL;   (* object URLs created and not revoked *)
  urlSupply : nat;             (* the browser's supply of fresh blob: URLs *)
  trace : list Effect          (* oldest first *)
}.

Definition update (f : State -> State) (w : World) : World :=
  mkWorld (f (ui w)) (jobs w) (liveUrls w) (urlSupply w) (trace w).

Definition emit (e : Effect) (w : World) : World :=
  mkWorld (ui w) (jobs w) (liveUrls w) (urlSupply w) (trace w ++ [e]).

Definition suspend (j : Job) (w : World) : World :=
  mkWorld (ui w) (jobs w ++ [j]) (liveUrls w) (urlSupply w) (trace w).

Definition blobUrl (n : nat) : string := "blob:" ++ digits (Z.of_nat n).

(** [URL.createObjectURL(new Blob([data], { type }))]. *)
Definition createObjectURL (type : string) (data : list byte) (w : World) : string * World :=
  let url := blobUrl (urlSupply w) in
  (url, mkWorld (ui w) (jobs w) (liveUrls w ++ [mkObjectURL url type]) (S (urlSupply w))
                (trace w ++ [CreateObjectURL type data url])).

(** [URL.revokeObjectURL(url)]. *)
Definition revokeObjectURL (url : string) (w : World) : World :=
  mkWorld (ui w) (jobs w)
          (filter (fun o => negb (String.eqb (href o) url)) (liveUrls w))
          (urlSupply w) (trace w ++ [RevokeObjectURL url]).

(** Truthiness of a [string | null]. *)
Definition truthyStr (s : option string) : bool :=
  match s with
  | Some (String _ _) => true
  | _ => false
  end.

(* ------------------------------------------------------------------ *)
(** ** handleEncode *)

Definition isCustom (p : Preset) : bool := String.eqb (name p) CUSTOM.

(** The argument vector handed to [ffmpeg.exec]. *)
Definition execArgs (filter bitrate : string) : list string :=
  ["-i"; "input.mp4"; "-filter:v"; filter; "-b:v"; bitrate; "-c:a"; "copy"; "output.mp4"].

(** [catch] followed by [finally]. *)
Definition catchFinally (w : World) : World :=
  let w := emit (ConsoleError "Failed to encode video:") w in
  let w := emit (NotificationShow "错误" "视频编码失败" "red") w in
  update (setIsEncoding false) w.

(** A call of [handleEncode] as rendered with snapshot [c]: everything up
    to the first suspension, at [await fetchFile(file)]. *)
Definition handleEncode (c : State) (w : World) : World :=
  match file c with
  | None => w
  | Some f =>
      if negb (loaded c) then w else
      let w := if truthyStr (encodedVideoUrl c)
               then update (setEncodedVideoUrl None) w else w in
      match find (fun p => String.eqb (name p) (selectedPreset c)) PRESETS with
      | None => w
      | Some preset =>
          let error := if isCustom preset
                       then validateCustomSettings (customResolution c) (customBitrate c)
                       else None in
          if truthyStr error then
            emit (NotificationShow "错误" (match error with Some m => m | None => "" end) "red") w
          else
            let w := update (setIsEncoding true) w in
            let w := update (setLogs []) w in              (* clearLogs() *)
            let w := emit (FetchFile f) w in
            suspend (mkJob c preset AwaitFetchFile) w
      end
  end.

(** The segment of [handleEncode] that runs when the promise job [j] waits
    on settles; the job it returns, if any, is [j] at its next [await]. *)
Definition resume (j : Job) (r : Settled) (w : World) : World * option Job :=
  let c := closure j in
  let preset := preset j in
  match r with
  | Rejected _ => (catchFinally w, None)
  | Fulfilled value =>
      match awaiting j with
      | AwaitFetchFile =>
          (emit (FFmpegWriteFile "input.mp4" value) w, Some (mkJob c preset AwaitWriteFile))
      | AwaitWriteFile =>
          let resolution := if isCustom preset then Some (customResolution c)
                            else resolution preset in
          let bitrate := if isCustom preset then toString (customBitrate c) ++ "M"
                         else if truthyStr (bitrate preset)
                              then match bitrate preset with Some b => b | None => "" end
                              else "1M" in
          match resolution with
          | Some resolution =>
              if truthy resolution then
                (emit (FFmpegExec
                         (execArgs (getScalingFilter (scalingStrategy c) (backgroundColor c)
                                                     resolution)
                                   bitrate)) w,
                 Some (mkJob c preset AwaitExec))
              else (catchFinally w, None)       (* throw new Error("Resolution is not set") *)
          | None => (catchFinally w, None)
          end
      | AwaitExec =>
          (emit (FFmpegReadFile "output.mp4") w, Some (mkJob c preset AwaitReadFile))
      | AwaitReadFile =>
          let '(url, w) := createObjectURL "video/mp4" value w in
          let w := update (setEncodedVideoUrl (Some url)) w in
          let fileNameWithoutExt :=
            match file c with
            | Some f => hd "" (JsString.split "." (fileName f))
            | None => ""
            end in
          let w := emit (AnchorClick url ("encoded_" ++ fileNameWithoutExt ++ ".mp4")) w in
          let w := emit (NotificationShow "成功" "视频编码完成！" "green") w in
          (update (setIsEncoding false) w, None)                     (* finally *)
      end
  end.

(** A job driven by the settlements [rs] of its successive [await]s, until
    it terminates or [rs] is used up. *)
Fixpoint runJob (j : Job) (rs : list Settled) (w : World) : World * option Job :=
  match rs with
  | [] => (w, Some j)
  | r :: rs' =>
      match resume j r w with
      | (w', Some j') => runJob j' rs' w'
      | (w', None) => (w', None)
      end
  end.

(* ------------------------------------------------------------------ *)
(** ** Rendering and events *)

Definition optStringEqb (a b : option string) : bool :=
  match a, b with
  | None, None => true
  | Some x, Some y => String.eqb x y
  | _, _ => false
  end.

(** React after a handler segment: the component re-renders with the
    updated cells, and the effects whose dependencies differ from those of
    the previous render [prev] run.  [now] is [Date.now()] at that time.

    - [useEncodingTime]'s effect, dependencies [progress; isEncoding];
    - the cleanup of the [encodedVideoUrl] effect, which revokes the URL
      the previous render had captured as [currentUrl]. *)
Definition commit (prev : State) (now : number) (w : World) : World :=
  let w :=
    if JsNumber.eqb (progress prev) (progress (ui w))
       && Bool.eqb (isEncoding prev) (isEncoding (ui w))
    then w
    else update (encodingTimeEffect now) w in
  if optStringEqb (encodedVideoUrl prev) (encodedVideoUrl (ui w)) then w
  else if truthyStr (encodedVideoUrl prev)
       then match encodedVideoUrl prev with
            | Some currentUrl => revokeObjectURL currentUrl w
            | None => w
            end
       else w.

(** The props the render gives the encode button:
    [loading={isEncoding} disabled={!file || !loaded}]. *)
Record ButtonProps : Type := mkButtonProps { loading : bool; disabled : bool }.

Definition encodeButton (s : State) : ButtonProps :=
  {| loading := isEncoding s;
     disabled := match file s with None => true | Some _ => false end || negb (loaded s) |}.

(** A Mantine [Button] that is [loading] or [disabled] dispatches no
    click. *)
Definition clickable (b : ButtonProps) : bool := negb (loading b) && negb (disabled b).

Definition LF : string := String "010"%char EmptyString.

Definition handleFileSelect (c : State) (selectedFile : option File) (w : World) : World :=
  let w := if truthyStr (encodedVideoUrl c)
           then update (setEncodedVideoUrl None) w else w in
  update (setFile selectedFile) w.

Inductive Event : Type :=
| FFmpegLoaded                                  (* ffmpeg.load() fulfilled *)
| FFmpegLoadFailed (message : string)
| FFmpegLog (message : string)                  (* ffmpeg.on("log") *)
| FFmpegProgress (p : number)                   (* ffmpeg.on("progress") *)
| PromiseSettled (i : nat) (r : Settled)        (* the await of job [i] settles *)
| FileSelect (selectedFile : option File)
| PresetChange (value : string)
| CustomResolutionChange (val : option number)  (* [None]: not a number *)
| CustomBitrateChange (val : option number)
| ScalingStrategyChange (value : ScalingStrategy)
| BackgroundColorChange (value : string)
| EncodeClick
| RedownloadClick
| ClearLogsClick
| LogsDownloadClick.

Fixpoint removeNth {A : Type} (i : nat) (l : list A) : list A :=
  match l, i with
  | [], _ => []
  | _ :: l', O => l'
  | x :: l', S i' => x :: removeNth i' l'
  end.

Definition settle (i : nat) (r : Settled) (w : World) : World :=
  match nth_error (jobs w) i with
  | None => w
  | Some j =>
      let w := mkWorld (ui w) (removeNth i (jobs w)) (liveUrls w) (urlSupply w) (trace w) in
      match resume j r w with
      | (w', Some j') => suspend j' w'
      | (w', None) => w'
      end
  end.

(** The handler an event reaches.  Every input of the form is rendered
    with [disabled={isEncoding}]. *)
Definition handle (e : Event) (w : World) : World :=
  let c := ui w in
  match e with
  | FFmpegLoaded => update (setLoaded true) w
  | FFmpegLoadFailed message =>
      emit (NotificationShow "加载 FFmpeg 失败" message "red")
           (emit (ConsoleError "Failed to load FFmpeg:") w)
  | FFmpegLog message => update (fun s => setLogs (logs s ++ [message]) s) w
  | FFmpegProgress p => update (setProgress p) w
  | PromiseSettled i r => settle i r w
  | FileSelect selectedFile =>
      if isEncoding c then w else handleFileSelect c selectedFile w
  | PresetChange value =>
      if isEncoding c then w else update (setSelectedPreset value) w
  | CustomResolutionChange val =>
      if isEncoding c then w
      else update (setCustomResolution
                     (match val with Some v => v | None => DEFAULT_RESOLUTION end)) w
  | CustomBitrateChange val =>
      if isEncoding c then w
      else update (setCustomBitrate
                     (match val with Some v => v | None => DEFAULT_BITRATE end)) w
  | ScalingStrategyChange value =>
      if isEncoding c then w else update (setScalingStrategy value) w
  | BackgroundColorChange value =>
      if isEncoding c then w else update (setBackgroundColor value) w
  | EncodeClick =>
      if clickable (encodeButton c) then handleEncode c w else w
  | RedownloadClick =>
      (* rendered when [encodedVideoUrl && !isEncoding && file] *)
      match encodedVideoUrl c, file c with
      | Some (String x u), Some f =>
          if isEncoding c then w
          else emit (AnchorClick (String x u) ("encoded_" ++ fileName f)) w
      | _, _ => w
      end
  | ClearLogsClick => update (setLogs []) w
  | LogsDownloadClick =>
      (* rendered when [logs.length > 0] *)
      match logs c with
      | [] => w
      | _ :: _ =>
          let '(url, w) :=
            createObjectURL "text/plain"
              (list_byte_of_string (String.concat LF (logs c))) w in
          emit (AnchorClick url "编码日志.txt") w
      end
  end.

Definition step (now : number) (e : Event) (w : World) : World :=
  commit (ui w) now (handle e w).

Definition initialWorld : World := mkWorld initialState [] [] 0 [].

Fixpoint run (es : list (number * Event)) (w : World) : World :=
  match es with
  | [] => w
  | (now, e) :: es' => run es' (step now e w)
  end.

(** The worlds the user, the engine and the clock can bring about. *)
Inductive reachable : World -> Prop :=
| reachable_initial : reachable initialWorld
| reachable_step : forall w now e, reachable w -> reachable (step now e w).

(* ------------------------------------------------------------------ *)
(** ** The filter language, as the specification reads it *)

(** The engine's filter chains, restricted to what the two strategies are
    specified to build; [render] is the engine's concrete syntax. *)
Module FilterGraph.

Inductive Filter : Type :=
| CropCentredMinSquare
    (* crop=min(iw\,ih):min(iw\,ih) : a square whose side is the smaller of
       the input's width and height; no x, y given, so centred *)
| Scale (w h : number)
    (* scale=w:h : to exactly w x h *)
| ScaleToFit (w h : number)
    (* scale=w:h:force_original_aspect_ratio=decrease : inside w x h,
       aspect ratio kept *)
| PadCentred (w h : number) (color : string).
    (* pad=w:h:-1:-1:color=c : to exactly w x h, the input centred *)

Definition renderFilter (f : Filter) : string :=
  match f with
  | CropCentredMinSquare => "crop=min(iw\,ih):min(iw\,ih)"
  | Scale w h => "scale=" ++ toString w ++ ":" ++ toString h
  | ScaleToFit w h =>
      "scale=" ++ toString w ++ ":" ++ toString h ++ ":force_original_aspect_ratio=decrease"
  | PadCentred w h color =>
      "pad=" ++ toString w ++ ":" ++ toString h ++ ":-1:-1:color=" ++ color
  end.

(** A chain applies its filters left to right. *)
Definition render (chain : list Filter) : string := String.concat "," (map renderFilter chain).

Definition isPad (f : Filter) : bool :=
  match f with
  | PadCentred _ _ _ => true
  | _ => false
  end.

(** Cover: crop to the centred square, then scale it to [r] x [r]. *)
Definition coverChain (r : number) : list Filter := [CropCentredMinSquare; Scale r r].

(** Contain: fit inside [r] x [r], then pad to [r] x [r] with [color]. *)
Definition containChain (r : number) (color : string) : list Filter :=
  [ScaleToFit r r; PadCentred r r color].

End FilterGraph.

(* ------------------------------------------------------------------ *)
(** ** Scenarios *)

Definition clip : File := mkFile "clip.final.mov" [x00; x01; x02].

(** The form with [clip] chosen, the engine loaded, and the custom preset
    selected with the given values. *)
Definition customForm (resolution bitrate : number) : State :=
  setCustomBitrate bitrate
    (setCustomResolution resolution
       (setSelectedPreset CUSTOM (setLoaded true (setFile (Some clip) initialState)))).

(** The engine loads, the user picks [clip] and clicks; the job runs to
    its end while the engine reports progress up to 1. *)
Definition firstEncode : list (number * Event) :=
  [ (ofZ 0, FFmpegLoaded);
    (ofZ 1000, FileSelect (Some clip));
    (ofZ 2000, EncodeClick);
    (ofZ 2010, PromiseSettled 0 (Fulfilled (fileData clip)));
    (ofZ 2020, PromiseSettled 0 (Fulfilled []));
    (ofZ 3000, FFmpegProgress (Num 25 2));
    (ofZ 13000, FFmpegProgress (Num 5 1));
    (ofZ 23000, FFmpegProgress (ofZ 1));
    (ofZ 23010, PromiseSettled 0 (Fulfilled []));
    (ofZ 23020, PromiseSettled 0 (Fulfilled [x03])) ].


(** The world right after the first click: one job in flight. *)
Definition inFlight : World := run (firstn 3 firstEncode) initialWorld.



(** The first encode done ... *)
Definition firstDone : World := run firstEncode initialWorld.

(** ... and the user clicks again. *)
Definition secondTrigger : World := step (ofZ 30000) EncodeClick firstDone.

Definition isExec (e : Effect) : bool :=
  match e with
  | FFmpegExec _ => true
  | _ => false
  end.



(* ------------------------------------------------------------------ *)
(** ** Invariants of the reachable worlds *)

(** The object URLs left alive by the cleanup of the [encodedVideoUrl]
    effect, when the cell goes from [prevUrl] to [newUrl]. *)
Definition released (prevUrl newUrl : option string) (live : list ObjectURL)
  : list ObjectURL :=
  if optStringEqb prevUrl newUrl then live
  else if truthyStr prevUrl
       then match prevUrl with
            | Some currentUrl =>
                filter (fun o => negb (String.eqb (href o) currentUrl)) live
            | None => live
            end
       else live.

(** The live object URLs that hold an encoded video. *)
Definition isVideo (o : ObjectURL) : bool := String.eqb (blobType o) "video/mp4".

Definition videoHrefs (live : list ObjectURL) : list string := map href (filter isVideo live).

Definition resultUrls (w : World) : list string := videoHrefs (liveUrls w).

(** The three shapes a reachable world has: nothing encoded yet or the
    result dropped; a result on offer; one job in flight. *)
Inductive Shape (w : World) : Prop :=
| ShapeIdle :
    isEncoding (ui w) = false -> jobs w = [] ->
    encodedVideoUrl (ui w) = None -> resultUrls w = [] -> Shape w
| ShapeResult (n : nat) :
    isEncoding (ui w) = false -> jobs w = [] ->
    encodedVideoUrl (ui w) = Some (blobUrl n) -> resultUrls w = [blobUrl n] -> Shape w
| ShapeBusy (j : Job) :
    isEncoding (ui w) = true -> jobs w = [j] ->
    encodedVideoUrl (ui w) = None -> resultUrls w = [] -> Shape w.


(** The settlements a job still needs to reach its end. *)
Definition awaitsLeft (a : Await) : nat :=
  match a with
  | AwaitFetchFile => 4
  | AwaitWriteFile => 3
  | AwaitExec => 2
  | AwaitReadFile => 1
  end.

Definition isRejected (r : Settled) : bool :=
  match r with
  | Rejected _ => true
  | Fulfilled _ => false
  end.

Definition genericFailure : Effect := NotificationShow "错误" "视频编码失败" "red".

Ltac world_simpl :=
  cbn [ui jobs liveUrls urlSupply trace update emit suspend
       revokeObjectURL createObjectURL closure preset awaiting fst snd
       selectedPreset customResolution customBitrate file isEncoding
       scalingStrategy backgroundColor encodedVideoUrl loaded progress logs
       elapsedTime estimatedTime startTimeRef
       setSelectedPreset setCustomResolution setCustomBitrate setFile
       setIsEncoding setScalingStrategy setBackgroundColor setEncodedVideoUrl
       setLoaded setProgress setLogs setElapsedTime setEstimatedTime
       setStartTimeRef] in *.

(* ------------------------------------------------------------------ *)
(** ** Notions used to state further properties *)



(** A string without the character [c]. *)
Definition lacks (c : ascii) (s : string) : Prop := forall n, String.get n s <> Some c.

(** What [handleEncode] has checked of a job it started: its preset is one
    of [PRESETS], a file was chosen, and if the preset is the custom one the
    custom values passed [validateCustomSettings]. *)
Definition validJob (j : Job) : Prop :=
  In (preset j) PRESETS
  /\ (exists f, file (closure j) = Some f)
  /\ (isCustom (preset j) = true ->
      validateCustomSettings (customResolution (closure j)) (customBitrate (closure j))
      = None).

(** An engine command whose resolution and bitrate are within the valid
    ranges. *)
Definition inRangeCommand (e : Effect) : Prop :=
  match e with
  | FFmpegExec args =>
      exists (strategy : ScalingStrategy) (color : string) (r : number) (rate : string),
        args = execArgs (getScalingFilter strategy color r) rate
        /\ (100 <= toQ r <= 1920)%Q
        /\ (rate = "1M" \/ rate = "1.5M"
            \/ exists b : number, (1 # 2 <= toQ b <= 10)%Q /\ rate = toString b ++ "M")
  | _ => True
  end.

(** The effects of the encode pipeline. *)
Definition isFetch (e : Effect) : bool :=
  match e with FetchFile _ => true | _ => false end.
Definition isWrite (e : Effect) : bool :=
  match e with FFmpegWriteFile _ _ => true | _ => false end.
Definition isRead (e : Effect) : bool :=
  match e with FFmpegReadFile _ => true | _ => false end.
Definition isResult (e : Effect) : bool :=
  match e with CreateObjectURL type _ _ => String.eqb type "video/mp4" | _ => false end.
Definition isPipeline (e : Effect) : bool := isFetch e || isWrite e || isExec e || isRead e.

Definition count (p : Effect -> bool) (w : World) : nat := List.length (filter p (trace w)).

(** No stage of the pipeline has run more often than the stage before
    it. *)
Definition stageOrder (w : World) : Prop :=
  (count isResult w <= count isRead w <= count isExec w)%nat
  /\ (count isExec w <= count isWrite w <= count isFetch w)%nat.

(** How far the pipeline of a job in flight is ahead of the completed
    stages. *)
Definition stageAhead (j : Job) (w : World) : Prop :=
  match awaiting j with
  | AwaitFetchFile => (count isWrite w < count isFetch w)%nat
  | AwaitWriteFile => (count isExec w < count isWrite w)%nat
  | AwaitExec => (count isRead w < count isExec w)%nat
  | AwaitReadFile => (count isResult w < count isRead w)%nat
  end.

(** The settings of the form a job depends on. *)
Definition sameSettings (c s : State) : Prop :=
  selectedPreset c = selectedPreset s
  /\ customResolution c = customResolution s
  /\ customBitrate c = customBitrate s
  /\ file c = file s
  /\ scalingStrategy c = scalingStrategy s
  /\ backgroundColor c = backgroundColor s.

(** The object URLs of log downloads, and the effect that creates one. *)
Definition isLogUrl (o : ObjectURL) : bool := String.eqb (blobType o) "text/plain".

Definition isLogDownload (e : Effect) : bool :=
  match e with
  | CreateObjectURL type _ _ => String.eqb type "text/plain"
  | _ => false
  end.

(** The first encode with its command handed to the engine and not yet
    settled. *)
Definition execPending : World := run (firstn 5 firstEncode) initialWorld.

(** After the first encode the user asks for the custom preset at 50
    pixels. *)
Definition tooSmall : World :=
  step (ofZ 26000) (CustomResolutionChange (Some (ofZ 50)))
       (step (ofZ 25000) (PresetChange CUSTOM) firstDone).

(** The logs are downloaded before and after the first encode, which
    clears them in between, and then the file is taken away, which drops
    the result. *)
Definition logsKept : World :=
  run ([(ofZ 0, FFmpegLog "ffmpeg version 5.1.4"); (ofZ 0, LogsDownloadClick)]
         ++ firstEncode
         ++ [(ofZ 23500, FFmpegLog "Aborted()"); (ofZ 24000, LogsDownloadClick);
             (ofZ 30000, FileSelect None)])
      initialWorld.

(** Every live URL came from the browser's supply, and the URL of the
    current result is not the URL of a log. *)
Definition urlsApart (w : World) : Prop :=
  (forall o, In o (liveUrls w) -> exists k, (k < urlSupply w)%nat /\ href o = blobUrl k)
  /\ (forall u, encodedVideoUrl (ui w) = Some u ->
                exists n, (n < urlSupply w)%nat /\ u = blobUrl n
                          /\ forall o, In o (liveUrls w) -> isLogUrl o = true -> href o <> u).

(* ------------------------------------------------------------------ *)
(** ** The beforeunload listener *)

(** The window's [beforeunload] listeners.  Every run of the effect makes
    a new [handleBeforeUnload] function; functions are told apart by the
    number of the run that made them. *)
Record Window : Type := mkWindow {
  listeners : list nat;            (* the functions registered *)
  mountedHandler : option nat;     (* the function of the effect's last run *)
  handlerSupply : nat
}.

(** [window.addEventListener]: a function already registered is not
    registered twice. *)
Definition addEventListener (h : nat) (l : list nat) : list nat :=
  if existsb (Nat.eqb h) l then l else (l ++ [h])%list.

Definition removeEventListener (h : nat) (l : list nat) : list nat :=
  filter (fun x => negb (Nat.eqb x h)) l.

(** One run of the effect with dependency [isEncoding]: the cleanup of the
    previous run, then the body. *)
Definition beforeUnloadEffect (isEncoding : bool) (win : Window) : Window :=
  let l := match mountedHandler win with
           | Some previous => removeEventListener previous (listeners win)
           | None => listeners win
           end in
  let handleBeforeUnload := handlerSupply win in
  let l := if isEncoding then addEventListener handleBeforeUnload l
           else removeEventListener handleBeforeUnload l in
  mkWindow l (Some handleBeforeUnload) (S (handlerSupply win)).

(** The component and the window it is mounted in. *)
Definition mounted : World * Window :=
  (initialWorld, beforeUnloadEffect (isEncoding initialState) (mkWindow [] None 0)).

Definition pageStep (now : number) (e : Event) (p : World * Window) : World * Window :=
  let w' := step now e (fst p) in
  (w', if Bool.eqb (isEncoding (ui (fst p))) (isEncoding (ui w'))
       then snd p
       else beforeUnloadEffect (isEncoding (ui w')) (snd p)).

Inductive pageReachable : World * Window -> Prop :=
| pageReachable_mounted : pageReachable mounted
| pageReachable_step : forall p now e, pageReachable p -> pageReachable (pageStep now e p).

Example toString_480 : toString (ofZ 480) = "480". Proof. reflexivity. Qed.
Example toString_1_5 : toString (Num 15 1) = "1.5". Proof. reflexivity. Qed.
Example toString_0_05 : toString (Num (-50) 3) = "-0.05". Proof. reflexivity. Qed.
Example toString_10_0 : toString (Num 100 1) = "10". Proof. reflexivity. Qed.
Example split_ex : JsString.split "." "clip.final.mov" = ["clip"; "final"; "mov"].
Proof. reflexivity. Qed.
Example replace_ex : JsString.replace "#" "0x" "#1a2B3c" = "0x1a2B3c".
Proof. reflexivity. Qed.
Example validate_ex1 : validateCustomSettings (ofZ 50) (ofZ 1) = Some "分辨率必须在100到1920之间".
Proof. reflexivity. Qed.
Example validate_ex2 : validateCustomSettings (ofZ 480) (Num 4 1) = Some "比特率必须在0.5到10 Mbps之间".
Proof. reflexivity. Qed.
Example filter_ex : getScalingFilter contain "#000000" (ofZ 480) =
  "scale=480:480:force_original_aspect_ratio=decrease,pad=480:480:-1:-1:color=0x000000".
Proof. reflexivity. Qed.

(* ------------------------------------------------------------------ *)
(** ** Strings *)

Lemma substring_all (s : string) : String.substring 0 (String.length s) s = s.
Proof. induction s as [|c s IH]; simpl; [reflexivity | now rewrite IH]. Qed.

Lemma append_assoc (a b c : string) : (a ++ b) ++ c = a ++ (b ++ c).
Proof. induction a as [|x a IH]; simpl; [reflexivity | now rewrite IH]. Qed.

(** On a string that starts with the pattern, [replace] swaps that prefix
    and leaves the rest untouched. *)
Lemma replace_leading (c : ascii) (rep rest : string) :
  JsString.replace (String c "") rep (String c rest) = rep ++ rest.
Proof.
  simpl. destruct (ascii_dec c c) as [_|Hne]; [|congruence].
  destruct rest as [|d rest']; simpl.
  - reflexivity.
  - now rewrite substring_all.
Qed.

(** A string without the pattern's character is returned as it is. *)
Lemma replace_absent (c : ascii) (rep s : string) :
  (forall n, String.get n s <> Some c) ->
  JsString.replace (String c "") rep s = s.
Proof.
  induction s as [|d s IH]; intros Hno; simpl; [reflexivity|].
  destruct (ascii_dec c d) as [->|Hne].
  - exfalso. exact (Hno 0%nat eq_refl).
  - f_equal. apply IH. intros n. exact (Hno (S n)).
Qed.

(* ------------------------------------------------------------------ *)
(** ** The filter builder *)

(** C2.  Under the Cover strategy, for every resolution [r] (and whatever
    the background colour), [getScalingFilter] returns exactly
    [crop=min(iw\,ih):min(iw\,ih),scale=r:r]: the chain that crops the
    centred square of side min(width, height) and then scales it to
    [r] x [r].  The chain has no pad filter, and the result does not depend
    on anything but [r]. *)
Theorem getScalingFilter_cover (backgroundColor : string) (r : number) :
  getScalingFilter cover backgroundColor r
    = "crop=min(iw\,ih):min(iw\,ih),scale=" ++ toString r ++ ":" ++ toString r
  /\ getScalingFilter cover backgroundColor r = FilterGraph.render (FilterGraph.coverChain r)
  /\ existsb FilterGraph.isPad (FilterGraph.coverChain r) = false
  /\ (forall backgroundColor', getScalingFilter cover backgroundColor' r
                               = getScalingFilter cover backgroundColor r).
Proof.
  repeat split.
Qed.

(** C3.  Under the Contain strategy, for every resolution [r] and every
    background colour written [#] followed by its digits,
    [getScalingFilter] returns exactly
    [scale=r:r:force_original_aspect_ratio=decrease,pad=r:r:-1:-1:color=0x...]:
    the chain that fits the source inside [r] x [r] keeping its aspect
    ratio and then pads it, centred, to [r] x [r]; the colour literal is
    the hex string with its leading [#] replaced by [0x]. *)
Theorem getScalingFilter_contain (r : number) (hex : string) :
  getScalingFilter contain ("#" ++ hex) r
    = "scale=" ++ toString r ++ ":" ++ toString r
      ++ ":force_original_aspect_ratio=decrease,pad="
      ++ toString r ++ ":" ++ toString r ++ ":-1:-1:color=0x" ++ hex
  /\ getScalingFilter contain ("#" ++ hex) r
     = FilterGraph.render (FilterGraph.containChain r ("0x" ++ hex)).
Proof.
  assert (Hcolor : JsString.replace "#" "0x" ("#" ++ hex) = "0x" ++ hex)
    by apply replace_leading.
  unfold getScalingFilter. rewrite Hcolor.
  split.
  - reflexivity.
  - unfold FilterGraph.render, FilterGraph.containChain. simpl map.
    unfold FilterGraph.renderFilter. simpl String.concat.
    simpl. repeat (rewrite append_assoc; simpl). reflexivity.
Qed.

(* ------------------------------------------------------------------ *)
(** ** Numbers *)

Lemma pow10_pos (k : nat) : 0 < pow10 k.
Proof. unfold pow10. apply Z.pow_pos_nonneg; lia. Qed.

Lemma pow10_add (j k : nat) : pow10 (j + k) = pow10 j * pow10 k.
Proof. unfold pow10. rewrite Nat2Z.inj_add. apply Z.pow_add_r; lia. Qed.

Lemma toQ_den (n : number) : Z.pos (Qden (toQ n)) = pow10 (scale n).
Proof. simpl. apply Z2Pos.id, pow10_pos. Qed.

Lemma toQ_ofZ (z : Z) : toQ (ofZ z) = inject_Z z.
Proof. reflexivity. Qed.

Lemma ltb_toQ (a b : number) : ltb a b = true <-> (toQ a < toQ b)%Q.
Proof.
  unfold Qlt. rewrite !toQ_den. simpl Qnum. unfold ltb. apply Z.ltb_lt.
Qed.

Lemma ltb_toQ_false (a b : number) : ltb a b = false <-> (toQ b <= toQ a)%Q.
Proof.
  unfold Qle. rewrite !toQ_den. simpl Qnum. unfold ltb. apply Z.ltb_ge.
Qed.

Lemma eqb_toQ (a b : number) : JsNumber.eqb a b = true <-> (toQ a == toQ b)%Q.
Proof.
  unfold Qeq. rewrite !toQ_den. simpl Qnum. unfold JsNumber.eqb. apply Z.eqb_eq.
Qed.

Lemma sub_toQ (a b : number) : (toQ (sub a b) == toQ a - toQ b)%Q.
Proof.
  unfold Qeq. rewrite toQ_den.
  unfold Qminus, Qplus, Qopp. cbn [Qnum Qden].
  rewrite Pos2Z.inj_mul, !toQ_den.
  unfold sub, toQ. cbn [mant scale Qnum Qden]. rewrite pow10_add.
  ring.
Qed.

(** [floorDiv] is the floor of the exact quotient. *)
Lemma floorDiv_toQ (a b : number) :
  (0 < toQ b)%Q ->
  floorDiv a b = ofZ (Qfloor (toQ a / toQ b)).
Proof.
  intros Hb.
  assert (Hm : 0 < mant b).
  { unfold Qlt in Hb. simpl in Hb. lia. }
  unfold floorDiv. f_equal.
  assert (Hq : (toQ a / toQ b ==
                (mant a * pow10 (scale b)) # Z.to_pos (mant b * pow10 (scale a)))%Q).
  { unfold Qeq, Qdiv, Qmult, Qinv, toQ. cbn [Qnum Qden].
    destruct (mant b) as [|p|p] eqn:Eb; try lia.
    cbn [Qnum Qden].
    rewrite Pos2Z.inj_mul.
    assert (Hpa := pow10_pos (scale a)). assert (Hpb := pow10_pos (scale b)).
    rewrite !Z2Pos.id by lia. ring. }
  rewrite (Qfloor_comp _ _ Hq). unfold Qfloor.
  rewrite Z2Pos.id; [reflexivity|].
  apply Z.mul_pos_pos; [assumption | apply pow10_pos].
Qed.

Lemma max_toQ (a b : number) : (toQ (JsNumber.max a b) == Qmax (toQ a) (toQ b))%Q.
Proof.
  unfold JsNumber.max. destruct (ltb a b) eqn:E.
  - apply ltb_toQ in E. symmetry. apply Q.max_r. now apply Qlt_le_weak.
  - apply ltb_toQ_false in E. symmetry. now apply Q.max_l.
Qed.

(** C10.  [getScalingFilter] answers for each of the three strategies of
    the type, and for every strategy other than [cover] -- [fill]
    included -- the answer is the scale-then-pad expression of [contain]. *)
Theorem getScalingFilter_not_cover
    (s : ScalingStrategy) (backgroundColor : string) (r : number) :
  s <> cover ->
  getScalingFilter s backgroundColor r = getScalingFilter contain backgroundColor r
  /\ getScalingFilter s backgroundColor r
     = FilterGraph.render
         (FilterGraph.containChain r (JsString.replace "#" "0x" backgroundColor)).
Proof.
  intros Hs. split.
  - destruct s; [congruence | reflexivity | reflexivity].
  - destruct s; [congruence | |];
      unfold getScalingFilter, FilterGraph.render, FilterGraph.containChain;
      simpl; repeat (rewrite append_assoc; simpl); reflexivity.
Qed.

(** [fill] at 720 on white builds the expression of [contain]. *)
Lemma getScalingFilter_fill :
  fill <> cover
  /\ getScalingFilter fill "#ffffff" (ofZ 720) = getScalingFilter contain "#ffffff" (ofZ 720)
  /\ getScalingFilter fill "#ffffff" (ofZ 720)
     = "scale=720:720:force_original_aspect_ratio=decrease,pad=720:720:-1:-1:color=0xffffff".
Proof.
  assert (H : fill <> cover) by discriminate.
  split; [exact H|].
  destruct (getScalingFilter_not_cover fill "#ffffff" (ofZ 720) H) as [H1 H2].
  split; [exact H1|].
  rewrite H2. reflexivity.
Defined.

(* ------------------------------------------------------------------ *)
(** ** Validation of the custom settings *)

Lemma validate_resolution (r b : number) :
  (toQ r < 100 \/ 1920 < toQ r)%Q ->
  validateCustomSettings r b = Some "分辨率必须在100到1920之间".
Proof.
  intros H. unfold validateCustomSettings.
  assert (E : ltb r MIN_RESOLUTION || gtb r MAX_RESOLUTION = true).
  { apply orb_true_iff. unfold gtb. rewrite !ltb_toQ. exact H. }
  rewrite E. reflexivity.
Qed.

Lemma resolution_in_range (r : number) :
  (100 <= toQ r <= 1920)%Q ->
  ltb r MIN_RESOLUTION || gtb r MAX_RESOLUTION = false.
Proof.
  intros [Hlo Hhi]. apply orb_false_iff. unfold gtb.
  rewrite !ltb_toQ_false. split; assumption.
Qed.

Lemma toQ_MIN_BITRATE : (toQ MIN_BITRATE == 1 # 2)%Q.
Proof. reflexivity. Qed.

Lemma validate_bitrate (r b : number) :
  (100 <= toQ r <= 1920)%Q ->
  (toQ b < 1 # 2 \/ 10 < toQ b)%Q ->
  validateCustomSettings r b = Some "比特率必须在0.5到10 Mbps之间".
Proof.
  intros Hr H. unfold validateCustomSettings.
  rewrite (resolution_in_range r Hr).
  assert (E : ltb b MIN_BITRATE || gtb b MAX_BITRATE = true).
  { apply orb_true_iff. unfold gtb. rewrite !ltb_toQ, toQ_MIN_BITRATE. exact H. }
  rewrite E. reflexivity.
Qed.

Lemma validate_in_range (r b : number) :
  (100 <= toQ r <= 1920)%Q ->
  (1 # 2 <= toQ b <= 10)%Q ->
  validateCustomSettings r b = None.
Proof.
  intros Hr [Hlo Hhi]. unfold validateCustomSettings.
  rewrite (resolution_in_range r Hr).
  assert (E : ltb b MIN_BITRATE || gtb b MAX_BITRATE = false).
  { apply orb_false_iff. unfold gtb. rewrite !ltb_toQ_false, toQ_MIN_BITRATE.
    split; assumption. }
  rewrite E. reflexivity.
Qed.

Lemma truthy_resolution (r : number) : (100 <= toQ r)%Q -> truthy r = true.
Proof.
  intros H. unfold truthy. apply negb_true_iff, Z.eqb_neq.
  unfold Qle in H. simpl in H. lia.
Qed.

(** C4.  With a file chosen, the engine loaded and the custom preset
    selected:
    - a custom resolution outside [100, 1920] makes [handleEncode] show the
      error naming the resolution and its range and do nothing else;
    - with the resolution in range, a custom bitrate outside [0.5, 10]
      makes it show the error naming the bitrate and its range and do
      nothing else;
    in both cases no job starts and nothing is fetched, written to the
    engine or executed.  With both in range the job starts, and once the
    file is staged the engine is invoked with the bitrate written as the
    custom value followed by [M]. *)
Theorem custom_settings_validated (c : State) (w : World) (f : File) :
  file c = Some f ->
  loaded c = true ->
  selectedPreset c = CUSTOM ->
  let r := toQ (customResolution c) in
  let b := toQ (customBitrate c) in
  let custom := mkPreset CUSTOM None None in
  let w' := handleEncode c w in
  ((r < 100 \/ 1920 < r)%Q ->
     trace w' = (trace w ++ [NotificationShow "错误" "分辨率必须在100到1920之间" "red"])%list
     /\ jobs w' = jobs w /\ isEncoding (ui w') = isEncoding (ui w))
  /\ ((100 <= r <= 1920)%Q -> (b < 1 # 2 \/ 10 < b)%Q ->
     trace w' = (trace w ++ [NotificationShow "错误" "比特率必须在0.5到10 Mbps之间" "red"])%list
     /\ jobs w' = jobs w /\ isEncoding (ui w') = isEncoding (ui w))
  /\ ((100 <= r <= 1920)%Q -> (1 # 2 <= b <= 10)%Q ->
     trace w' = (trace w ++ [FetchFile f])%list
     /\ jobs w' = (jobs w ++ [mkJob c custom AwaitFetchFile])%list
     /\ isEncoding (ui w') = true
     /\ forall (staged : list byte) (w1 : World),
          resume (mkJob c custom AwaitWriteFile) (Fulfilled staged) w1
          = (emit (FFmpegExec
                     (execArgs
                        (getScalingFilter (scalingStrategy c) (backgroundColor c)
                                          (customResolution c))
                        (toString (customBitrate c) ++ "M"))) w1,
             Some (mkJob c custom AwaitExec))).
Proof.
  intros Hfile Hloaded Hpreset r b custom w'.
  assert (Hw' : w' =
    let w0 := if truthyStr (encodedVideoUrl c)
              then update (setEncodedVideoUrl None) w else w in
    let error := validateCustomSettings (customResolution c) (customBitrate c) in
    if truthyStr error
    then emit (NotificationShow "错误" (match error with Some m => m | None => "" end) "red") w0
    else suspend (mkJob c custom AwaitFetchFile)
           (emit (FetchFile f) (update (setLogs []) (update (setIsEncoding true) w0)))).
  { subst w'. unfold handleEncode. rewrite Hfile, Hloaded, Hpreset. reflexivity. }
  assert (Hsame : forall w0 : World,
            w0 = (if truthyStr (encodedVideoUrl c)
                  then update (setEncodedVideoUrl None) w else w) ->
            trace w0 = trace w /\ jobs w0 = jobs w
            /\ isEncoding (ui w0) = isEncoding (ui w)).
  { intros w0 ->. destruct (truthyStr (encodedVideoUrl c)); [|auto].
    destruct w as [s js us n tr]; destruct s; auto. }
  destruct (Hsame _ eq_refl) as (Htr & Hjobs & Hflag).
  repeat split.
  - rewrite Hw'. cbv zeta. rewrite (validate_resolution _ _ H). simpl.
    now rewrite Htr.
  - rewrite Hw'. cbv zeta. rewrite (validate_resolution _ _ H). simpl. exact Hjobs.
  - rewrite Hw'. cbv zeta. rewrite (validate_resolution _ _ H). simpl. exact Hflag.
  - rewrite Hw'. cbv zeta. rewrite (validate_bitrate _ _ H H0). simpl.
    now rewrite Htr.
  - rewrite Hw'. cbv zeta. rewrite (validate_bitrate _ _ H H0). simpl. exact Hjobs.
  - rewrite Hw'. cbv zeta. rewrite (validate_bitrate _ _ H H0). simpl. exact Hflag.
  - rewrite Hw'. cbv zeta. rewrite (validate_in_range _ _ H H0). simpl.
    now rewrite Htr.
  - rewrite Hw'. cbv zeta. rewrite (validate_in_range _ _ H H0). simpl.
    now rewrite Hjobs.
  - rewrite Hw'. cbv zeta. rewrite (validate_in_range _ _ H H0). simpl.
    destruct (truthyStr (encodedVideoUrl c));
      destruct w as [s js us n tr]; destruct s; reflexivity.
  - intros staged w1. unfold resume. cbn [closure preset awaiting].
    change (isCustom custom) with true. cbv iota.
    destruct H as [Hlo _]. fold r in Hlo.
    now rewrite (truthy_resolution _ Hlo).
Qed.

(** The two examples of the resolver: custom 50 at 1 Mbps is refused for its
    resolution; custom 480 at 1 Mbps passes and encodes at [1M]. *)
Lemma custom_settings_examples :
  trace (handleEncode (customForm (ofZ 50) (ofZ 1)) initialWorld)
    = [NotificationShow "错误" "分辨率必须在100到1920之间" "red"]
  /\ jobs (handleEncode (customForm (ofZ 50) (ofZ 1)) initialWorld) = []
  /\ trace (handleEncode (customForm (ofZ 480) (ofZ 1)) initialWorld) = [FetchFile clip]
  /\ fst (resume (mkJob (customForm (ofZ 480) (ofZ 1)) (mkPreset CUSTOM None None)
                        AwaitWriteFile)
                 (Fulfilled (fileData clip)) initialWorld)
     = emit (FFmpegExec ["-i"; "input.mp4"; "-filter:v";
                         "crop=min(iw\,ih):min(iw\,ih),scale=480:480";
                         "-b:v"; "1M"; "-c:a"; "copy"; "output.mp4"]) initialWorld.
Proof.
  pose proof (custom_settings_validated (customForm (ofZ 50) (ofZ 1)) initialWorld clip
                eq_refl eq_refl eq_refl) as (Hbad & _ & _).
  pose proof (custom_settings_validated (customForm (ofZ 480) (ofZ 1)) initialWorld clip
                eq_refl eq_refl eq_refl) as (_ & _ & Hgood).
  assert (Hlow : (toQ (customResolution (customForm (ofZ 50) (ofZ 1))) < 100)%Q)
    by (unfold Qlt; simpl; lia).
  assert (Hr : (100 <= toQ (customResolution (customForm (ofZ 480) (ofZ 1))) <= 1920)%Q)
    by (split; unfold Qle; simpl; lia).
  assert (Hb : (1 # 2 <= toQ (customBitrate (customForm (ofZ 480) (ofZ 1))) <= 10)%Q)
    by (split; unfold Qle; simpl; lia).
  destruct (Hbad (or_introl Hlow)) as (Ht & Hj & _).
  destruct (Hgood Hr Hb) as (Ht' & _ & _ & Hexec).
  split; [exact Ht|]. split; [exact Hj|]. split; [exact Ht'|].
  rewrite Hexec. reflexivity.
Defined.

(* ------------------------------------------------------------------ *)
(** ** Rendering *)

Lemma encodingTimeEffect_keeps (now : number) (s : State) :
  isEncoding (encodingTimeEffect now s) = isEncoding s
  /\ progress (encodingTimeEffect now s) = progress s
  /\ encodedVideoUrl (encodingTimeEffect now s) = encodedVideoUrl s
  /\ file (encodingTimeEffect now s) = file s
  /\ loaded (encodingTimeEffect now s) = loaded s.
Proof.
  destruct s as [a1 a2 a3 a4 a5 a6 a7 a8 a9 a10 a11 a12 a13 a14].
  unfold encodingTimeEffect.
  cbn [isEncoding progress startTimeRef setStartTimeRef setElapsedTime setEstimatedTime].
  destruct a5; cbn [andb negb]; [|repeat split].
  destruct (gtb a10 (ofZ 0)); repeat split.
Qed.

Lemma encodingTimeEffect_inactive (now : number) (s : State) :
  isEncoding s = false ->
  startTimeRef (encodingTimeEffect now s) = None
  /\ elapsedTime (encodingTimeEffect now s) = ofZ 0
  /\ estimatedTime (encodingTimeEffect now s) = ofZ 0.
Proof.
  destruct s as [a1 a2 a3 a4 a5 a6 a7 a8 a9 a10 a11 a12 a13 a14].
  cbn [isEncoding]. intros ->. repeat split.
Qed.

Lemma commit_ui (prev : State) (now : number) (w : World) :
  ui (commit prev now w)
  = if JsNumber.eqb (progress prev) (progress (ui w))
       && Bool.eqb (isEncoding prev) (isEncoding (ui w))
    then ui w
    else encodingTimeEffect now (ui w).
Proof.
  unfold commit.
  destruct (JsNumber.eqb (progress prev) (progress (ui w))
            && Bool.eqb (isEncoding prev) (isEncoding (ui w)));
    match goal with
    | |- context [optStringEqb ?a ?b] => destruct (optStringEqb a b)
    end;
    destruct (encodedVideoUrl prev) as [[|x u]|]; reflexivity.
Qed.

Lemma commit_keeps (prev : State) (now : number) (w : World) :
  isEncoding (ui (commit prev now w)) = isEncoding (ui w)
  /\ progress (ui (commit prev now w)) = progress (ui w)
  /\ encodedVideoUrl (ui (commit prev now w)) = encodedVideoUrl (ui w)
  /\ file (ui (commit prev now w)) = file (ui w)
  /\ loaded (ui (commit prev now w)) = loaded (ui w).
Proof.
  rewrite commit_ui.
  destruct (JsNumber.eqb (progress prev) (progress (ui w))
            && Bool.eqb (isEncoding prev) (isEncoding (ui w)));
    [repeat split | apply encodingTimeEffect_keeps].
Qed.

(* ------------------------------------------------------------------ *)
(** ** The time estimator *)



(* ------------------------------------------------------------------ *)
(** ** One step of the world *)

Lemma optStringEqb_refl (a : option string) : optStringEqb a a = true.
Proof. destruct a; simpl; [apply String.eqb_refl | reflexivity]. Qed.

Lemma number_eqb_refl (a : number) : JsNumber.eqb a a = true.
Proof. unfold JsNumber.eqb. apply Z.eqb_refl. Qed.

Lemma commit_jobs (prev : State) (now : number) (w : World) :
  jobs (commit prev now w) = jobs w.
Proof.
  unfold commit.
  repeat match goal with
         | |- context [if ?b then _ else _] => destruct b
         | |- context [match encodedVideoUrl prev with _ => _ end] =>
             destruct (encodedVideoUrl prev)
         end; reflexivity.
Qed.

Lemma commit_liveUrls (prev : State) (now : number) (w : World) :
  liveUrls (commit prev now w)
  = released (encodedVideoUrl prev) (encodedVideoUrl (ui w)) (liveUrls w).
Proof.
  unfold commit, released.
  destruct (JsNumber.eqb (progress prev) (progress (ui w))
            && Bool.eqb (isEncoding prev) (isEncoding (ui w))).
  - destruct (optStringEqb (encodedVideoUrl prev) (encodedVideoUrl (ui w)));
      [reflexivity|].
    destruct (encodedVideoUrl prev) as [[|x u]|]; reflexivity.
  - cbn [ui update].
    destruct (encodingTimeEffect_keeps now (ui w)) as (_ & _ & -> & _).
    destruct (optStringEqb (encodedVideoUrl prev) (encodedVideoUrl (ui w)));
      [reflexivity|].
    destruct (encodedVideoUrl prev) as [[|x u]|]; reflexivity.
Qed.

Lemma commit_trace (prev : State) (now : number) (w : World) :
  trace (commit prev now w)
  = (trace w ++
     (if optStringEqb (encodedVideoUrl prev) (encodedVideoUrl (ui w)) then []
      else match encodedVideoUrl prev with
           | Some (String x u) => [RevokeObjectURL (String x u)]
           | _ => []
           end))%list.
Proof.
  unfold commit.
  destruct (JsNumber.eqb (progress prev) (progress (ui w))
            && Bool.eqb (isEncoding prev) (isEncoding (ui w))).
  - destruct (optStringEqb (encodedVideoUrl prev) (encodedVideoUrl (ui w)));
      [now rewrite app_nil_r|].
    destruct (encodedVideoUrl prev) as [[|x u]|]; simpl; now rewrite ?app_nil_r.
  - cbn [ui update].
    destruct (encodingTimeEffect_keeps now (ui w)) as (_ & _ & -> & _).
    destruct (optStringEqb (encodedVideoUrl prev) (encodedVideoUrl (ui w)));
      [now rewrite app_nil_r|].
    destruct (encodedVideoUrl prev) as [[|x u]|]; simpl; now rewrite ?app_nil_r.
Qed.

Lemma reachable_run (es : list (number * Event)) :
  forall w, reachable w -> reachable (run es w).
Proof.
  induction es as [|[now e] es IH]; intros w Hw; simpl.
  - exact Hw.
  - apply IH. now constructor.
Qed.


Lemma released_same (url : option string) (live : list ObjectURL) :
  released url url live = live.
Proof. unfold released. now rewrite optStringEqb_refl. Qed.

Lemma released_none (url : option string) (live : list ObjectURL) :
  released None url live = live.
Proof. unfold released. destruct (optStringEqb None url); reflexivity. Qed.

Lemma truthy_blobUrl (n : nat) : truthyStr (Some (blobUrl n)) = true.
Proof. reflexivity. Qed.

(** Revoking the one video URL there is leaves no video URL. *)
Lemma videoHrefs_revoked (u : string) (live : list ObjectURL) :
  videoHrefs live = [u] ->
  videoHrefs (filter (fun o => negb (String.eqb (href o) u)) live) = [].
Proof.
  intros H.
  assert (Hall : forall x, In x (videoHrefs live) -> x = u).
  { intros x Hx. rewrite H in Hx. destruct Hx as [<-|[]]. reflexivity. }
  clear H. unfold videoHrefs in *.
  induction live as [|o live IH]; [reflexivity|].
  cbn [filter] in *.
  destruct (isVideo o) eqn:Ev.
  - cbn [map In] in Hall.
    rewrite (Hall (href o) (or_introl eq_refl)), String.eqb_refl. cbn [negb].
    apply IH. intros x Hx. apply Hall. now right.
  - destruct (negb (String.eqb (href o) u)); cbn [filter]; rewrite ?Ev; now apply IH.
Qed.

Lemma videoHrefs_released (n : nat) (live : list ObjectURL) :
  videoHrefs live = [blobUrl n] ->
  videoHrefs (released (Some (blobUrl n)) None live) = [].
Proof.
  intros H. unfold released. cbn [optStringEqb]. rewrite truthy_blobUrl.
  now apply videoHrefs_revoked.
Qed.

Lemma videoHrefs_app (live : list ObjectURL) (url type : string) :
  videoHrefs (live ++ [mkObjectURL url type])
  = (videoHrefs live ++ (if String.eqb type "video/mp4" then [url] else []))%list.
Proof.
  unfold videoHrefs. rewrite filter_app, map_app. f_equal.
  cbn [filter]. unfold isVideo. cbn [blobType].
  destruct (String.eqb type "video/mp4"); reflexivity.
Qed.

(* ------------------------------------------------------------------ *)
(** ** The shape of the reachable worlds *)

Lemma shape_commit (w w1 : World) (now : number) :
  Shape (mkWorld (ui w1) (jobs w1)
                 (released (encodedVideoUrl (ui w)) (encodedVideoUrl (ui w1)) (liveUrls w1))
                 (urlSupply w1) (trace w1)) ->
  Shape (commit (ui w) now w1).
Proof.
  intros H.
  destruct (commit_keeps (ui w) now w1) as (Hflag & _ & Hurl & _).
  pose proof (commit_jobs (ui w) now w1) as Hjobs.
  pose proof (commit_liveUrls (ui w) now w1) as Hlive.
  destruct H as [H1 H2 H3 H4 | n H1 H2 H3 H4 | j H1 H2 H3 H4];
    unfold resultUrls in *; world_simpl.
  - apply ShapeIdle; unfold resultUrls; congruence.
  - apply (ShapeResult _ n); unfold resultUrls; congruence.
  - apply (ShapeBusy _ j); unfold resultUrls; congruence.
Qed.

Lemma resume_shape (j : Job) (r : Settled) (w : World) :
  isEncoding (ui w) = true -> jobs w = [] ->
  encodedVideoUrl (ui w) = None -> resultUrls w = [] ->
  match resume j r w with
  | (w', Some j') =>
      isEncoding (ui w') = true /\ jobs w' = [] /\ encodedVideoUrl (ui w') = None
      /\ resultUrls w' = []
  | (w', None) =>
      isEncoding (ui w') = false /\ jobs w' = []
      /\ ((encodedVideoUrl (ui w') = None /\ resultUrls w' = [])
          \/ (encodedVideoUrl (ui w') = Some (blobUrl (urlSupply w))
              /\ resultUrls w' = [blobUrl (urlSupply w)]))
  end.
Proof.
  intros H1 H2 H3 H4. unfold resume, catchFinally, resultUrls in *.
  destruct r as [value|reason]; [|world_simpl; auto].
  destruct (awaiting j); world_simpl; auto.
  - destruct (if isCustom (preset j) then Some (customResolution (closure j))
              else resolution (preset j)) as [res|]; [|world_simpl; auto].
    destruct (truthy res); world_simpl; auto.
  - rewrite videoHrefs_app, H4. auto.
Qed.

Ltac shape_cases H :=
  destruct H as [H1 H2 H3 H4 | n H1 H2 H3 H4 | j H1 H2 H3 H4];
  unfold resultUrls in H4.

Ltac shape_field :=
  unfold resultUrls; world_simpl;
  rewrite ?released_same, ?released_none, ?videoHrefs_app;
  solve [ eauto
        | apply videoHrefs_released; eauto
        | cbn [String.eqb Ascii.eqb Bool.eqb]; rewrite ?app_nil_r; eauto ].

Ltac shape_done :=
  world_simpl; cbn [app];
  first [ apply ShapeIdle; shape_field
        | eapply ShapeResult; shape_field
        | eapply ShapeBusy; shape_field ].

Lemma step_shape (now : number) (e : Event) (w : World) :
  Shape w -> Shape (step now e w).
Proof.
  intros H. unfold step. apply shape_commit.
  destruct e; cbn [handle].
  all: try solve [ shape_cases H; rewrite ?H1; world_simpl; rewrite ?H3; shape_done ].
  - (* PromiseSettled *)
    unfold settle.
    shape_cases H; rewrite H2.
    + destruct i; cbn [nth_error]; rewrite H3; shape_done.
    + destruct i; cbn [nth_error]; rewrite H3; shape_done.
    + destruct i as [|i]; cbn [nth_error removeNth];
        [|destruct i; cbn [nth_error]; rewrite H3; shape_done].
      pose proof (resume_shape j r (mkWorld (ui w) [] (liveUrls w) (urlSupply w) (trace w))
                    H1 eq_refl H3 H4) as Hr.
      destruct (resume j r _) as [w' [j'|]]; unfold resultUrls in Hr.
      * destruct Hr as (R1 & R2 & R3 & R4). world_simpl.
        rewrite R2, R3, H3. shape_done.
      * destruct Hr as (R1 & R2 & [[R3 R4]|[R3 R4]]); rewrite R3, H3; shape_done.
  - (* FileSelect *)
    unfold handleFileSelect.
    shape_cases H; rewrite H1, H3, ?truthy_blobUrl; cbn [truthyStr];
      world_simpl; shape_done.
  - (* EncodeClick *)
    unfold clickable, encodeButton. cbn [loading disabled].
    shape_cases H; rewrite H1; cbn [negb andb];
      [ | | rewrite H3; shape_done ].
    all: unfold handleEncode; rewrite H3, ?truthy_blobUrl; cbn [truthyStr].
    all: destruct (file (ui w)) as [f|]; cbn [negb orb andb];
      [|rewrite ?H3; shape_done].
    all: destruct (loaded (ui w)); cbn [negb andb];
      [|rewrite ?H3; shape_done].
    all: destruct (find _ PRESETS) as [p|]; [|world_simpl; shape_done].
    all: match goal with
         | |- context [truthyStr ?e] => destruct (truthyStr e)
         end; world_simpl; rewrite ?H2; shape_done.
  - (* RedownloadClick *)
    shape_cases H; rewrite H1, H3; try (rewrite H3; shape_done).
    change (blobUrl n) with (String "b" ("lob:" ++ digits (Z.of_nat n))).
    destruct (file (ui w)); world_simpl; rewrite H3; shape_done.
  - (* LogsDownloadClick *)
    destruct (logs (ui w)); [shape_cases H; rewrite H3; shape_done|].
    shape_cases H; world_simpl; rewrite H3; shape_done.
Qed.

Lemma reachable_shape (w : World) : reachable w -> Shape w.
Proof.
  induction 1 as [|w now e _ IH].
  - apply ShapeIdle; reflexivity.
  - now apply step_shape.
Qed.

(* ------------------------------------------------------------------ *)
(** ** The engine commands in the trace *)

Ltac split_ifs :=
  repeat match goal with
         | |- context [if ?b then _ else _] => destruct b
         | |- context [match ?x with Some _ => _ | None => _ end] => destruct x
         | |- context [match ?x with EmptyString => _ | String _ _ => _ end] => destruct x
         end.

Lemma Forall_snoc {A : Type} (P : A -> Prop) (l : list A) (x : A) :
  Forall P l -> P x -> Forall P (l ++ [x]).
Proof. intros Hl Hx. apply Forall_app. split; [exact Hl | now constructor]. Qed.




(* ------------------------------------------------------------------ *)
(** ** Triggering an encode *)



Lemma inFlight_reachable : reachable inFlight.
Proof. apply reachable_run. constructor. Qed.



(* ------------------------------------------------------------------ *)
(** ** The engine command *)



Lemma firstDone_reachable : reachable firstDone.
Proof. apply reachable_run. constructor. Qed.



(* ------------------------------------------------------------------ *)
(** ** The end of a job *)

Lemma catchFinally_spec (w : World) :
  isEncoding (ui (catchFinally w)) = false
  /\ trace (catchFinally w)
     = (trace w ++ [ConsoleError "Failed to encode video:"] ++ [genericFailure])%list.
Proof.
  unfold catchFinally. world_simpl. split; [reflexivity|].
  now rewrite <- app_assoc.
Qed.

Lemma failure_last (w : World) :
  exists tr, trace (catchFinally w) = (tr ++ [genericFailure])%list.
Proof.
  exists (trace w ++ [ConsoleError "Failed to encode video:"])%list.
  destruct (catchFinally_spec w) as [_ ->]. now rewrite app_assoc.
Qed.

Lemma resume_jobs (j : Job) (r : Settled) (w : World) :
  jobs (fst (resume j r w)) = jobs w.
Proof.
  unfold resume, catchFinally.
  destruct r as [value|reason]; [destruct (awaiting j)|]; split_ifs; reflexivity.
Qed.

Lemma resume_end (j : Job) (r : Settled) (w : World) :
  snd (resume j r w) = None -> isEncoding (ui (fst (resume j r w))) = false.
Proof.
  unfold resume, catchFinally.
  destruct r as [value|reason]; [destruct (awaiting j)|]; split_ifs;
    cbn [fst snd]; intros H; try discriminate H; reflexivity.
Qed.

Lemma length_removeNth {A : Type} (l : list A) :
  forall (i : nat) (x : A),
    nth_error l i = Some x -> S (List.length (removeNth i l)) = List.length l.
Proof.
  induction l as [|y l IH]; intros [|i] x H; cbn in *; try discriminate.
  - reflexivity.
  - f_equal. now apply (IH i x).
Qed.

(** C6.  A job that has started ends, whatever its awaited promises
    settle to, after at most as many settlements as it has [await]s left;
    when it ends [isEncoding] is false, on success and on failure alike;
    and the last thing the job did to the outside was to show a
    notification: the generic failure one if any of those promises was
    rejected (or the resolution was missing), the success one only if none
    was.  In the world at large: whenever a settlement ends a job,
    [isEncoding] is false on the render that follows. *)
Theorem job_end_clears_isEncoding (rs : list Settled) :
  forall (j : Job) (w : World),
    (awaitsLeft (awaiting j) <= List.length rs)%nat ->
    (exists w' : World,
        runJob j rs w = (w', None)
        /\ isEncoding (ui w') = false
        /\ ((exists tr, trace w' = (tr ++ [genericFailure])%list)
            \/ (existsb isRejected (firstn (awaitsLeft (awaiting j)) rs) = false
                /\ exists tr,
                    trace w' = (tr ++ [NotificationShow "成功" "视频编码完成！" "green"])%list)))
    /\ (forall (now : number) (i : nat) (r : Settled),
          (List.length (jobs (step now (PromiseSettled i r) w)) < List.length (jobs w))%nat ->
          isEncoding (ui (step now (PromiseSettled i r) w)) = false).
Proof.
  assert (Hworld : forall (w : World) (now : number) (i : nat) (r : Settled),
             (List.length (jobs (step now (PromiseSettled i r) w))
              < List.length (jobs w))%nat ->
             isEncoding (ui (step now (PromiseSettled i r) w)) = false).
  { intros w now i r. unfold step.
    destruct (commit_keeps (ui w) now (handle (PromiseSettled i r) w)) as (-> & _).
    rewrite commit_jobs. cbn [handle]. unfold settle.
    destruct (nth_error (jobs w) i) as [j|] eqn:Ei; [|lia].
    pose proof (length_removeNth (jobs w) i j Ei) as Hlen.
    match goal with
    | |- context [resume j r ?w0] =>
        pose proof (resume_jobs j r w0) as Hjobs;
        pose proof (resume_end j r w0) as Hend;
        destruct (resume j r w0) as [w' [j'|]]
    end; cbn [fst snd] in *.
    - world_simpl. rewrite Hjobs, length_app. cbn [List.length]. lia.
    - intros _. now apply Hend. }
  induction rs as [|r rs IH]; intros j w Hlen; (split; [|apply Hworld]).
  - destruct (awaiting j); cbn in Hlen; lia.
  - cbn [runJob].
    destruct r as [value|reason].
    + unfold resume.
      destruct (awaiting j) eqn:Ea; cbn [awaitsLeft] in *;
        cbn [List.length firstn existsb isRejected orb] in *.
      * apply (IH (mkJob (closure j) (preset j) AwaitWriteFile)).
        cbn [awaiting awaitsLeft]. lia.
      * destruct (if isCustom (preset j) then Some (customResolution (closure j))
                  else resolution (preset j)) as [res|].
        -- destruct (truthy res).
           ++ apply (IH (mkJob (closure j) (preset j) AwaitExec)).
              cbn [awaiting awaitsLeft]. lia.
           ++ eexists. split; [reflexivity|]. split; [apply catchFinally_spec|].
              left. apply failure_last.
        -- eexists. split; [reflexivity|]. split; [apply catchFinally_spec|].
           left. apply failure_last.
      * apply (IH (mkJob (closure j) (preset j) AwaitReadFile)).
        cbn [awaiting awaitsLeft]. lia.
      * eexists. split; [reflexivity|]. split; [reflexivity|].
        right. split; [reflexivity|].
        world_simpl. eexists. reflexivity.
    + cbn [resume]. eexists. split; [reflexivity|].
      split; [apply catchFinally_spec|]. left. apply failure_last.
Qed.

(** The engine aborts during [exec]: the job ends, the flag is cleared and
    the failure is notified. *)
Lemma job_end_clears_isEncoding_exec_rejected :
  let j := mkJob (customForm (ofZ 480) (ofZ 1)) (mkPreset CUSTOM None None) AwaitFetchFile in
  let rs := [Fulfilled (fileData clip); Fulfilled []; Rejected "Aborted()"; Fulfilled []] in
  exists w' : World,
    runJob j rs (update (setIsEncoding true) initialWorld) = (w', None)
    /\ isEncoding (ui w') = false
    /\ exists tr, trace w' = (tr ++ [genericFailure])%list.
Proof.
  intros j rs.
  assert (Hlen : (awaitsLeft (awaiting j) <= List.length rs)%nat) by (simpl; lia).
  destruct (job_end_clears_isEncoding rs j (update (setIsEncoding true) initialWorld) Hlen)
    as ((w' & Hrun & Hflag & Hfail) & _).
  exists w'. split; [exact Hrun|]. split; [exact Hflag|].
  destruct Hfail as [Hfail | [Hnone _]]; [exact Hfail | discriminate Hnone].
Defined.

(* ------------------------------------------------------------------ *)
(** ** The progress fraction *)

Lemma resume_progress (j : Job) (r : Settled) (w : World) :
  progress (ui (fst (resume j r w))) = progress (ui w).
Proof.
  unfold resume, catchFinally.
  destruct r as [value|reason]; [destruct (awaiting j)|]; split_ifs; reflexivity.
Qed.

Lemma handleEncode_progress (c : State) (w : World) :
  progress (ui (handleEncode c w)) = progress (ui w).
Proof.
  unfold handleEncode.
  destruct (file c); [|reflexivity].
  destruct (negb (loaded c)); [reflexivity|].
  destruct (find _ PRESETS); split_ifs; reflexivity.
Qed.

(** C7, as the code has it.  The progress fraction is 0 on the first
    render and afterwards is whatever the engine reported last: an engine
    progress event sets it and no other event changes it.  In particular
    [handleEncode] leaves it as it is: starting a job resets the log, not
    the progress. *)
Theorem progress_set_by_engine_only :
  progress (ui initialWorld) = ofZ 0
  /\ (forall (c : State) (w : World),
        progress (ui (handleEncode c w)) = progress (ui w)
        /\ (jobs (handleEncode c w) <> jobs w -> logs (ui (handleEncode c w)) = []))
  /\ (forall (now : number) (e : Event) (w : World),
        progress (ui (step now e w))
        = match e with
          | FFmpegProgress p => p
          | _ => progress (ui w)
          end).
Proof.
  split; [reflexivity|]. split.
  - intros c w. split; [apply handleEncode_progress|].
    unfold handleEncode.
    destruct (file c); [|congruence].
    destruct (negb (loaded c)); [congruence|].
    destruct (find _ PRESETS); split_ifs; world_simpl; congruence.
  - intros now e w. unfold step.
    destruct (commit_keeps (ui w) now (handle e w)) as (_ & -> & _).
    destruct e; cbn [handle]; unfold handleFileSelect; split_ifs; try reflexivity.
    + unfold settle. destruct (nth_error (jobs w) i) as [j|]; [|reflexivity].
      match goal with
      | |- context [resume j r ?w0] =>
          pose proof (resume_progress j r w0) as Hr;
          destruct (resume j r w0) as [w' [j'|]]
      end; exact Hr.
    + apply handleEncode_progress.
Qed.

(** The second trigger leaves the progress where the first encode left it,
    and clears the log. *)
Lemma progress_set_by_engine_only_secondTrigger :
  progress (ui secondTrigger) = progress (ui firstDone)
  /\ logs (ui (handleEncode (ui firstDone)
                            firstDone)) = [].
Proof.
  destruct progress_set_by_engine_only as (_ & Hcall & Hstep).
  split.
  - apply (Hstep (ofZ 30000) EncodeClick firstDone).
  - apply Hcall. vm_compute. discriminate.
Defined.

(** C7, as the specification states it, fails: when the second encode is
    triggered, a job is in flight, the engine has reported nothing for it
    yet, and the progress on offer is the 1 the first job ended with. *)
Lemma progress_not_reset :
  reachable secondTrigger
  /\ isEncoding (ui secondTrigger) = true
  /\ List.length (jobs secondTrigger) = 1%nat
  /\ progress (ui secondTrigger) = ofZ 1
  /\ ~ (toQ (progress (ui secondTrigger)) == 0)%Q.
Proof.
  split; [constructor; exact firstDone_reachable|].
  split; [vm_compute; reflexivity|]. split; [vm_compute; reflexivity|].
  split; [vm_compute; reflexivity|].
  intros H. vm_compute in H. discriminate.
Qed.

(* ------------------------------------------------------------------ *)
(** ** The downloadable handle *)

(** C9.  In every world the form's events can reach, the live object URLs
    of encoded videos are exactly the one in [encodedVideoUrl], if any:
    never more than one.  A click that triggers an encode while a result
    exists leaves none alive -- the previous URL is revoked on the render
    that follows the click -- and none is alive for as long as the job is
    in flight, so that the new result's URL is created with no other one
    alive. *)
Theorem previous_url_released (w : World) :
  reachable w ->
  resultUrls w = match encodedVideoUrl (ui w) with Some u => [u] | None => [] end
  /\ (List.length (resultUrls w) <= 1)%nat
  /\ (jobs w <> [] -> resultUrls w = [])
  /\ (forall (now : number) (u : string),
        encodedVideoUrl (ui w) = Some u ->
        clickable (encodeButton (ui w)) = true ->
        resultUrls (step now EncodeClick w) = []
        /\ encodedVideoUrl (ui (step now EncodeClick w)) = None
        /\ In (RevokeObjectURL u) (trace (step now EncodeClick w)))
  /\ (forall (now : number) (job : Job) (value : list byte),
        jobs w = [job] -> awaiting job = AwaitReadFile ->
        let w' := step now (PromiseSettled 0 (Fulfilled value)) w in
        resultUrls w = []
        /\ resultUrls w' = [blobUrl (urlSupply w)]
        /\ encodedVideoUrl (ui w') = Some (blobUrl (urlSupply w))).
Proof.
  intros Hw. pose proof (reachable_shape w Hw) as Hs.
  split; [|split; [|split; [|split]]].
  - shape_cases Hs; unfold resultUrls; rewrite H3, H4; reflexivity.
  - shape_cases Hs; unfold resultUrls; rewrite H4; cbn [List.length]; lia.
  - shape_cases Hs; unfold resultUrls; congruence.
  - intros now u Hu Hclick.
    shape_cases Hs; try congruence.
    rewrite H3 in Hu. injection Hu as <-.
    unfold clickable, encodeButton in Hclick. cbn [loading disabled] in Hclick.
    apply andb_true_iff in Hclick. destruct Hclick as [_ Hclick].
    apply negb_true_iff, orb_false_iff in Hclick. destruct Hclick as [Hf Hl].
    apply negb_false_iff in Hl.
    assert (Hnew : encodedVideoUrl (ui (handle EncodeClick w)) = None).
    { cbn [handle]. unfold clickable, encodeButton. cbn [loading disabled].
      rewrite H1, Hl. unfold handleEncode. rewrite Hl, H3, truthy_blobUrl.
      destruct (file (ui w)); [|discriminate]. cbn [negb orb andb].
      destruct (find _ PRESETS); split_ifs; reflexivity. }
    unfold step.
    destruct (commit_keeps (ui w) now (handle EncodeClick w)) as (_ & _ & Hk & _).
    rewrite Hk, commit_trace, Hnew, H3.
    split; [|split; [reflexivity|]].
    + pose proof (step_shape now EncodeClick w (ShapeResult w n H1 H2 H3 H4)) as Hs'.
      unfold step in Hs'.
      destruct Hs' as [_ _ _ H4' | m _ _ H3' _ | j _ _ _ H4']; try exact H4'.
      rewrite Hk, Hnew in H3'. discriminate.
    + apply in_or_app. right. cbn [optStringEqb]. left. reflexivity.
  - intros now job value Hj Ha w'.
    shape_cases Hs; try congruence.
    split; [exact H4|].
    subst w'. unfold step, resultUrls. rewrite commit_liveUrls, H3, released_none.
    destruct (commit_keeps (ui w) now (handle (PromiseSettled 0 (Fulfilled value)) w))
      as (_ & _ & -> & _).
    cbn [handle]. unfold settle. rewrite Hj. cbn [nth_error removeNth].
    unfold resume. rewrite Ha. world_simpl. rewrite videoHrefs_app, H4.
    split; reflexivity.
Qed.

(** The second trigger revokes the URL of the first result. *)
Lemma previous_url_released_secondTrigger :
  resultUrls firstDone = ["blob:0"]
  /\ resultUrls secondTrigger = []
  /\ In (RevokeObjectURL "blob:0") (trace secondTrigger).
Proof.
  destruct (previous_url_released firstDone firstDone_reachable)
    as (Hlive & _ & _ & Hclick & _).
  assert (Hurl : encodedVideoUrl (ui firstDone) = Some "blob:0")
    by (vm_compute; reflexivity).
  assert (Hbutton : clickable (encodeButton (ui firstDone)) = true)
    by (vm_compute; reflexivity).
  rewrite Hurl in Hlive. split; [exact Hlive|].
  destruct (Hclick (ofZ 30000) "blob:0" Hurl Hbutton) as (Hnone & _ & Hrevoked).
  split; [exact Hnone | exact Hrevoked].
Defined.

(* ------------------------------------------------------------------ *)
(** ** formatTime *)



Lemma digits_inj (a b : Z) : 0 <= a -> 0 <= b -> digits a = digits b -> a = b.
Proof.
  intros Ha Hb H. unfold digits in H.
  assert (Hnn : forall n : N, N.to_uint n <> Decimal.Nil).
  { intros [|p]; [discriminate | apply DecimalPos.Unsigned.to_uint_nonnil]. }
  apply (f_equal NilZero.uint_of_string) in H.
  rewrite !NilZero.usu in H by apply Hnn.
  injection H as H. apply DecimalN.Unsigned.to_uint_inj in H.
  now apply Z2N.inj.
Qed.







(* ------------------------------------------------------------------ *)
(** ** The name of the download *)

Lemma split_nonempty (sep : ascii) (s : string) : JsString.split sep s <> [].
Proof.
  destruct s as [|c s]; simpl; [discriminate|].
  destruct (Ascii.eqb c sep); [discriminate|].
  destruct (JsString.split sep s); discriminate.
Qed.

(** Joining the pieces with the separator gives the string back. *)
Lemma concat_split (sep : ascii) (s : string) :
  String.concat (String sep "") (JsString.split sep s) = s.
Proof.
  induction s as [|c s IH]; [reflexivity|].
  cbn [JsString.split].
  destruct (Ascii.eqb_spec c sep) as [->|Hne].
  - pose proof (split_nonempty sep s) as Hne.
    cbn [String.concat]. destruct (JsString.split sep s) as [|p ps]; [congruence|].
    cbn. f_equal. exact IH.
  - pose proof (split_nonempty sep s) as Hnil.
    destruct (JsString.split sep s) as [|p ps]; [congruence|].
    destruct ps as [|q qs]; cbn in *; now rewrite <- IH.
Qed.

(** The first piece is the part of the string before its first
    separator. *)
Lemma hd_split (sep : ascii) (s : string) :
  exists rest : string,
    s = hd "" (JsString.split sep s) ++ rest
    /\ (rest = "" \/ exists r, rest = String sep r)
    /\ lacks sep (hd "" (JsString.split sep s)).
Proof.
  induction s as [|c s (rest & Hs & Hrest & Hlacks)].
  - exists "". cbn. split; [reflexivity|]. split; [now left|]. intros [|n]; discriminate.
  - cbn [JsString.split].
    destruct (Ascii.eqb_spec c sep) as [->|Hne].
    + exists (String sep s). cbn. split; [reflexivity|].
      split; [right; now exists s|]. intros [|n]; discriminate.
    + pose proof (split_nonempty sep s) as Hnil.
      destruct (JsString.split sep s) as [|p ps]; [congruence|].
      cbn [hd] in *. exists rest. cbn. split; [now rewrite <- Hs|].
      split; [exact Hrest|].
      intros [|n]; cbn; [congruence | apply Hlacks].
Qed.

(** X2.  When the last promise of a job is fulfilled, the result is
    downloaded once, from the URL just created, under the name
    [encoded_<base>.mp4], where [<base>] is the part of the file's name
    before its first dot: the whole name if it has no dot, and the empty
    string if it starts with one. *)
Theorem download_named_after_base (j : Job) (f : File) (value : list byte) (w : World) :
  awaiting j = AwaitReadFile ->
  file (closure j) = Some f ->
  exists base rest : string,
    fileName f = base ++ rest
    /\ (rest = "" \/ exists r, rest = String "." r)
    /\ lacks "." base
    /\ trace (fst (resume j (Fulfilled value) w))
       = (trace w ++ [CreateObjectURL "video/mp4" value (blobUrl (urlSupply w));
                      AnchorClick (blobUrl (urlSupply w)) ("encoded_" ++ base ++ ".mp4");
                      NotificationShow "成功" "视频编码完成！" "green"])%list.
Proof.
  intros Ha Hf.
  destruct (hd_split "." (fileName f)) as (rest & Hs & Hrest & Hlacks).
  exists (hd "" (JsString.split "." (fileName f))), rest.
  split; [exact Hs|]. split; [exact Hrest|]. split; [exact Hlacks|].
  unfold resume. rewrite Ha, Hf. world_simpl.
  now rewrite <- !app_assoc.
Qed.

(** The download of [clip.final.mov]. *)
Lemma download_named_after_base_clip :
  exists base rest : string,
    "clip.final.mov" = base ++ rest
    /\ (rest = "" \/ exists r, rest = String "." r)
    /\ lacks "." base
    /\ In (AnchorClick "blob:0" ("encoded_" ++ base ++ ".mp4"))
          (trace (fst (resume (mkJob (customForm (ofZ 480) (ofZ 1))
                                     (mkPreset CUSTOM None None) AwaitReadFile)
                              (Fulfilled [x03]) initialWorld))).
Proof.
  destruct (download_named_after_base
              (mkJob (customForm (ofZ 480) (ofZ 1)) (mkPreset CUSTOM None None) AwaitReadFile)
              clip [x03] initialWorld eq_refl eq_refl)
    as (base & rest & Hname & Hrest & Hlacks & Htrace).
  exists base, rest. split; [exact Hname|]. split; [exact Hrest|].
  split; [exact Hlacks|]. rewrite Htrace. right. left. reflexivity.
Defined.

(* ------------------------------------------------------------------ *)
(** ** The colour literal *)

Lemma lacks_tail (c d : ascii) (s : string) : lacks c (String d s) -> d <> c /\ lacks c s.
Proof.
  intros H. split.
  - intros ->. exact (H 0%nat eq_refl).
  - intros n. exact (H (S n)).
Qed.

(** Only the first occurrence is replaced. *)
Lemma replace_first (c : ascii) (rep a b : string) :
  lacks c a ->
  JsString.replace (String c "") rep (a ++ String c b) = a ++ rep ++ b.
Proof.
  induction a as [|d a IH]; intros Ha.
  - cbn [append]. apply replace_leading.
  - apply lacks_tail in Ha. destruct Ha as [Hd Ha].
    cbn [append JsString.replace String.prefix].
    destruct (ascii_dec c d) as [->|_]; [congruence|].
    f_equal. now apply IH.
Qed.

(** X3.  Under a strategy other than [cover] the colour literal of the pad
    filter is the background colour with its first [#] -- wherever it is
    -- replaced by [0x], every later [#] kept; a colour that has no [#],
    a colour name for instance, is passed on as it is. *)
Theorem getScalingFilter_colour
    (s : ScalingStrategy) (r : number) (a b : string) :
  s <> cover ->
  lacks "#" a ->
  getScalingFilter s (a ++ "#" ++ b) r
  = FilterGraph.render (FilterGraph.containChain r (a ++ "0x" ++ b))
  /\ getScalingFilter s a r = FilterGraph.render (FilterGraph.containChain r a).
Proof.
  intros Hs Ha.
  assert (H1 : JsString.replace "#" "0x" (a ++ "#" ++ b) = a ++ "0x" ++ b)
    by (apply (replace_first "#" "0x" a b Ha)).
  assert (H2 : JsString.replace "#" "0x" a = a) by (apply replace_absent; exact Ha).
  split; destruct s; try congruence;
    unfold getScalingFilter, FilterGraph.render, FilterGraph.containChain;
    rewrite ?H1, ?H2; simpl; repeat (rewrite append_assoc; simpl); reflexivity.
Qed.

(** An eight-digit colour written twice over, and a colour name. *)
Lemma getScalingFilter_colour_examples :
  getScalingFilter contain "rgb#12#34" (ofZ 480)
  = "scale=480:480:force_original_aspect_ratio=decrease,pad=480:480:-1:-1:color=rgb0x12#34"
  /\ getScalingFilter fill "red" (ofZ 480)
     = "scale=480:480:force_original_aspect_ratio=decrease,pad=480:480:-1:-1:color=red".
Proof.
  assert (Hrgb : lacks "#" "rgb").
  { intros [|[|[|n]]]; discriminate. }
  assert (Hred : lacks "#" "red").
  { intros [|[|[|n]]]; discriminate. }
  destruct (getScalingFilter_colour contain (ofZ 480) "rgb" "12#34") as [H1 _];
    [discriminate | exact Hrgb |].
  destruct (getScalingFilter_colour fill (ofZ 480) "red" "") as [_ H2];
    [discriminate | exact Hred |].
  split; [exact H1 | exact H2].
Defined.

(* ------------------------------------------------------------------ *)
(** ** Validation and the inline errors *)

Lemma validate_none_in_range (r b : number) :
  validateCustomSettings r b = None ->
  (100 <= toQ r <= 1920)%Q /\ (1 # 2 <= toQ b <= 10)%Q.
Proof.
  intros Hnone.
  destruct (Qlt_le_dec (toQ r) 100) as [Hr1|Hr1];
    [rewrite validate_resolution in Hnone by (now left); discriminate|].
  destruct (Qlt_le_dec 1920 (toQ r)) as [Hr2|Hr2];
    [rewrite validate_resolution in Hnone by (now right); discriminate|].
  destruct (Qlt_le_dec (toQ b) (1 # 2)) as [Hb1|Hb1];
    [rewrite validate_bitrate in Hnone by (try split; auto); discriminate|].
  destruct (Qlt_le_dec 10 (toQ b)) as [Hb2|Hb2];
    [rewrite validate_bitrate in Hnone by (try split; auto); discriminate|].
  repeat split; assumption.
Qed.

(** X4.  [validateCustomSettings] returns the inline error of the
    resolution field if that field shows one, and otherwise the inline
    error of the bitrate field: the notification at the trigger and the
    errors under the fields never disagree.  It returns [null] exactly when
    the resolution is within [100, 1920] and the bitrate within [0.5, 10],
    bounds included. *)
Theorem validateCustomSettings_agrees (r b : number) :
  validateCustomSettings r b
  = match resolutionFieldError r with
    | Some message => Some message
    | None => bitrateFieldError b
    end
  /\ (validateCustomSettings r b = None
      <-> (100 <= toQ r <= 1920)%Q /\ (1 # 2 <= toQ b <= 10)%Q).
Proof.
  split.
  - unfold validateCustomSettings, resolutionFieldError, bitrateFieldError.
    destruct (ltb r MIN_RESOLUTION || gtb r MAX_RESOLUTION); [reflexivity|].
    destruct (ltb b MIN_BITRATE || gtb b MAX_BITRATE); reflexivity.
  - split; [apply validate_none_in_range|].
    intros [Hr Hb]. now apply validate_in_range.
Qed.

(* ------------------------------------------------------------------ *)
(** ** What reaches the engine *)

Lemma validate_truthy (r b : number) :
  truthyStr (validateCustomSettings r b) = false -> validateCustomSettings r b = None.
Proof.
  unfold validateCustomSettings.
  destruct (ltb r MIN_RESOLUTION || gtb r MAX_RESOLUTION); [discriminate|].
  destruct (ltb b MIN_BITRATE || gtb b MAX_BITRATE); [discriminate | reflexivity].
Qed.

(** A preset of the table that is not the custom one has a resolution and
    a bitrate of its own. *)
Lemma fixed_preset (p : Preset) :
  In p PRESETS -> isCustom p = false ->
  (resolution p = Some (ofZ 480) /\ bitrate p = Some "1M")
  \/ (resolution p = Some (ofZ 720) /\ bitrate p = Some "1.5M").
Proof.
  intros [<-|[<-|[<-|[]]]] H; [now left | now right | discriminate H].
Qed.

Lemma handleEncode_validJob (c : State) (w : World) :
  Forall validJob (jobs w) -> Forall validJob (jobs (handleEncode c w)).
Proof.
  intros H. unfold handleEncode.
  destruct (file c) as [f|] eqn:Ef; [|exact H].
  destruct (negb (loaded c)); [exact H|].
  destruct (find _ PRESETS) as [p|] eqn:Efind;
    [|destruct (truthyStr (encodedVideoUrl c)); exact H].
  apply find_some in Efind. destruct Efind as [Hin _].
  destruct (truthyStr (if isCustom p then _ else None)) eqn:Eerr;
    [destruct (truthyStr (encodedVideoUrl c)); exact H|].
  assert (Hjob : validJob (mkJob c p AwaitFetchFile)).
  { split; [exact Hin|]. split; [now exists f|].
    cbn [preset closure]. intros Hc. rewrite Hc in Eerr. now apply validate_truthy. }
  destruct (truthyStr (encodedVideoUrl c)); world_simpl;
    apply Forall_app; (split; [exact H | now constructor]).
Qed.

Lemma handleEncode_inRange (c : State) (w : World) :
  Forall inRangeCommand (trace w) -> Forall inRangeCommand (trace (handleEncode c w)).
Proof.
  intros H. unfold handleEncode.
  destruct (file c); [|exact H].
  destruct (negb (loaded c)); [exact H|].
  destruct (find _ PRESETS); split_ifs; world_simpl;
    repeat apply Forall_snoc; try exact H; exact I.
Qed.

(** A fulfilled promise ends a checked job only at its last [await]; before
    that the job goes on. *)
Lemma resume_next (j : Job) (value : list byte) (w : World) :
  validJob j ->
  match snd (resume j (Fulfilled value) w) with
  | Some j' => validJob j'
  | None => awaiting j = AwaitReadFile
  end.
Proof.
  intros (Hin & Hfile & Hcustom).
  assert (Hnext : forall a, validJob (mkJob (closure j) (preset j) a)).
  { intros a. unfold validJob. cbn [preset closure]. auto. }
  unfold resume.
  destruct (awaiting j) eqn:Ea; cbn [fst snd]; try apply Hnext; [|reflexivity].
  destruct (isCustom (preset j)) eqn:Ec.
  - destruct (validate_none_in_range _ _ (Hcustom eq_refl)) as [Hr Hb].
    rewrite (truthy_resolution _ (proj1 Hr)). apply Hnext.
  - destruct (fixed_preset _ Hin Ec) as [[-> ->]|[-> ->]]; apply Hnext.
Qed.

(** The command of a checked job is within the ranges. *)
Lemma resume_inRange (j : Job) (r : Settled) (w : World) :
  validJob j ->
  Forall inRangeCommand (trace w) ->
  Forall inRangeCommand (trace (fst (resume j r w))).
Proof.
  intros (Hin & Hfile & Hcustom) Htrace. unfold resume, catchFinally.
  destruct r as [value|reason]; [|world_simpl; now repeat apply Forall_snoc].
  destruct (awaiting j) eqn:Ea; cbn [fst snd].
  - world_simpl; now apply Forall_snoc.
  - destruct (isCustom (preset j)) eqn:Ec.
    + destruct (validate_none_in_range _ _ (Hcustom eq_refl)) as [Hr Hb].
      rewrite (truthy_resolution _ (proj1 Hr)).
      world_simpl. apply Forall_snoc; [exact Htrace|].
      cbn [inRangeCommand]. do 4 eexists. split; [reflexivity|].
      split; [exact Hr|]. right. right. eexists. split; [exact Hb | reflexivity].
    + destruct (fixed_preset _ Hin Ec) as [[-> ->]|[-> ->]]; cbn [fst snd truthyStr truthy];
        world_simpl; (apply Forall_snoc; [exact Htrace|]);
        cbn [inRangeCommand]; do 4 eexists; (split; [reflexivity|]);
        (split; [split; unfold Qle; simpl; lia|]); auto.
  - world_simpl; now apply Forall_snoc.
  - world_simpl. now repeat apply Forall_snoc.
Qed.

Lemma Forall_removeNth {A : Type} (P : A -> Prop) (l : list A) :
  forall i, Forall P l -> Forall P (removeNth i l).
Proof.
  induction l as [|x l IH]; intros [|i] H; cbn; try exact H.
  - now inversion H.
  - inversion H; subst. constructor; [assumption | now apply IH].
Qed.

Lemma step_checked (now : number) (e : Event) (w : World) :
  Forall validJob (jobs w) /\ Forall inRangeCommand (trace w) ->
  Forall validJob (jobs (step now e w)) /\ Forall inRangeCommand (trace (step now e w)).
Proof.
  intros [Hj Ht]. unfold step. rewrite commit_jobs, commit_trace.
  assert (Hrevoke : forall t, Forall inRangeCommand t ->
            Forall inRangeCommand
              (t ++ (if optStringEqb (encodedVideoUrl (ui w))
                                     (encodedVideoUrl (ui (handle e w)))
                     then []
                     else match encodedVideoUrl (ui w) with
                          | Some (String x u) => [RevokeObjectURL (String x u)]
                          | _ => []
                          end))%list).
  { intros t H. apply Forall_app. split; [exact H|]. split_ifs; repeat constructor. }
  destruct e; cbn [handle]; unfold handleFileSelect.
  all: try solve [ split; [|apply Hrevoke]; split_ifs; world_simpl;
                   repeat apply Forall_snoc; try assumption; exact I ].
  - (* PromiseSettled *)
    split; [|apply Hrevoke]; unfold settle;
      destruct (nth_error (jobs w) i) as [j|] eqn:Ei; try assumption.
    + assert (Hvj : validJob j).
      { apply nth_error_In in Ei. rewrite Forall_forall in Hj. now apply Hj. }
      match goal with
      | |- context [resume j r ?w0] =>
          pose proof (resume_jobs j r w0) as Hjobs;
          assert (Hnext : match snd (resume j r w0) with
                          | Some j' => validJob j'
                          | None => True
                          end)
            by (destruct r as [value|reason];
                [pose proof (resume_next j value w0 Hvj) as Hn;
                 destruct (snd (resume j (Fulfilled value) w0)); [exact Hn | exact I]
                | exact I]);
          destruct (resume j r w0) as [w' [j'|]]
      end; cbn [fst snd] in *; world_simpl; rewrite Hjobs; cbn [jobs].
      * apply Forall_app. split; [now apply Forall_removeNth | now constructor].
      * now apply Forall_removeNth.
    + assert (Hvj : validJob j).
      { apply nth_error_In in Ei. rewrite Forall_forall in Hj. now apply Hj. }
      match goal with
      | |- context [resume j r ?w0] =>
          pose proof (resume_inRange j r w0 Hvj Ht) as Htr;
          destruct (resume j r w0) as [w' [j'|]]
      end; exact Htr.
  - (* EncodeClick *)
    split; [|apply Hrevoke].
    + destruct (clickable _); [now apply handleEncode_validJob | exact Hj].
    + destruct (clickable _); [now apply handleEncode_inRange | exact Ht].
Qed.

Lemma reachable_checked (w : World) :
  reachable w -> Forall validJob (jobs w) /\ Forall inRangeCommand (trace w).
Proof.
  induction 1 as [|w now e _ IH].
  - split; constructor.
  - now apply step_checked.
Qed.

(** X5.  Whatever the form's events, every command the engine has been
    given scales to a resolution within [100, 1920] and encodes at [1M],
    at [1.5M] or at a custom bitrate within [0.5, 10]; and a job in flight
    whose promise is fulfilled goes on to its next step unless that was its
    last: [Resolution is not set] is never thrown, a job fails only when a
    promise is rejected. *)
Theorem engine_gets_valid_settings (w : World) :
  reachable w ->
  (forall args : list string,
      In (FFmpegExec args) (trace w) ->
      exists (strategy : ScalingStrategy) (color : string) (r : number) (rate : string),
        args = ["-i"; "input.mp4"; "-filter:v"; getScalingFilter strategy color r;
                "-b:v"; rate; "-c:a"; "copy"; "output.mp4"]
        /\ (100 <= toQ r <= 1920)%Q
        /\ (rate = "1M" \/ rate = "1.5M"
            \/ exists b : number, (1 # 2 <= toQ b <= 10)%Q /\ rate = toString b ++ "M"))
  /\ (forall (j : Job) (value : list byte) (w1 : World),
        In j (jobs w) ->
        snd (resume j (Fulfilled value) w1) = None -> awaiting j = AwaitReadFile).
Proof.
  intros Hw. destruct (reachable_checked w Hw) as [Hj Ht]. split.
  - intros args Hin. rewrite Forall_forall in Ht. exact (Ht _ Hin).
  - intros j value w1 Hin Hend. rewrite Forall_forall in Hj.
    pose proof (resume_next j value w1 (Hj _ Hin)) as Hnext.
    rewrite Hend in Hnext. exact Hnext.
Qed.

(** The first encode ran the command of the 480 preset. *)
Lemma engine_gets_valid_settings_firstDone :
  exists (strategy : ScalingStrategy) (color : string) (r : number) (rate : string),
    ["-i"; "input.mp4"; "-filter:v"; "crop=min(iw\,ih):min(iw\,ih),scale=480:480";
     "-b:v"; "1M"; "-c:a"; "copy"; "output.mp4"]
    = ["-i"; "input.mp4"; "-filter:v"; getScalingFilter strategy color r;
       "-b:v"; rate; "-c:a"; "copy"; "output.mp4"]
    /\ (100 <= toQ r <= 1920)%Q.
Proof.
  destruct (engine_gets_valid_settings firstDone firstDone_reachable) as [Hexec _].
  destruct (Hexec ["-i"; "input.mp4"; "-filter:v";
                   "crop=min(iw\,ih):min(iw\,ih),scale=480:480";
                   "-b:v"; "1M"; "-c:a"; "copy"; "output.mp4"])
    as (strategy & color & r & rate & Hargs & Hr & _).
  { vm_compute. right. right. left. reflexivity. }
  exists strategy, color, r, rate. split; [exact Hargs | exact Hr].
Defined.

(* ------------------------------------------------------------------ *)
(** ** Before the engine is loaded *)

Lemma resume_loaded (j : Job) (r : Settled) (w : World) :
  loaded (ui (fst (resume j r w))) = loaded (ui w).
Proof.
  unfold resume, catchFinally.
  destruct r as [value|reason]; [destruct (awaiting j)|]; split_ifs; reflexivity.
Qed.

Lemma handleEncode_loaded (c : State) (w : World) :
  loaded (ui (handleEncode c w)) = loaded (ui w).
Proof.
  unfold handleEncode.
  destruct (file c); [|reflexivity].
  destruct (negb (loaded c)); [reflexivity|].
  destruct (find _ PRESETS); split_ifs; reflexivity.
Qed.

(** Only the engine's load turns [loaded] on, and nothing turns it off. *)
Lemma step_loaded (now : number) (e : Event) (w : World) :
  loaded (ui (step now e w))
  = match e with
    | FFmpegLoaded => true
    | _ => loaded (ui w)
    end.
Proof.
  unfold step.
  destruct (commit_keeps (ui w) now (handle e w)) as (_ & _ & _ & _ & ->).
  destruct e; cbn [handle]; unfold handleFileSelect; split_ifs; try reflexivity.
  - unfold settle. destruct (nth_error (jobs w) i) as [j|]; [|reflexivity].
    match goal with
    | |- context [resume j r ?w0] =>
        pose proof (resume_loaded j r w0) as Hr;
        destruct (resume j r w0) as [w' [j'|]]
    end; exact Hr.
  - apply handleEncode_loaded.
Qed.

Lemma step_unloaded (now : number) (e : Event) (w : World) :
  loaded (ui (step now e w)) = false ->
  jobs w = [] ->
  Forall (fun x => isPipeline x = false) (trace w) ->
  jobs (step now e w) = []
  /\ Forall (fun x => isPipeline x = false) (trace (step now e w)).
Proof.
  intros Hafter Hjobs Htrace.
  assert (Hbefore : loaded (ui w) = false).
  { rewrite step_loaded in Hafter. destruct e; try exact Hafter. discriminate. }
  unfold step. rewrite commit_jobs, commit_trace.
  assert (Hrevoke : forall t (same : bool), Forall (fun x => isPipeline x = false) t ->
            Forall (fun x => isPipeline x = false)
              (t ++ (if same then []
                     else match encodedVideoUrl (ui w) with
                          | Some (String x u) => [RevokeObjectURL (String x u)]
                          | _ => []
                          end))%list).
  { intros t same H. apply Forall_app. split; [exact H|]. split_ifs; repeat constructor. }
  destruct e; cbn [handle]; unfold handleFileSelect, settle, clickable, encodeButton;
    cbn [loading disabled]; rewrite ?Hjobs, ?Hbefore, ?orb_true_r, ?andb_false_r;
    try (destruct i; cbn [nth_error]);
    (split; [|apply Hrevoke]); split_ifs; world_simpl;
    repeat apply Forall_snoc; try assumption; reflexivity.
Qed.

(** X6.  Until the engine has loaded nothing is fetched, staged, executed
    or read and no job exists: the encode button dispatches no click, and
    [loaded] changes only when the load succeeds -- after a failed load it
    stays off for good. *)
Theorem nothing_before_engine_loaded (w : World) :
  reachable w ->
  loaded (ui w) = false ->
  jobs w = []
  /\ (forall e, In e (trace w) -> isPipeline e = false)
  /\ clickable (encodeButton (ui w)) = false
  /\ (forall (now : number) (message : string),
        loaded (ui (step now (FFmpegLoadFailed message) w)) = false).
Proof.
  intros Hw.
  assert (Hinv : loaded (ui w) = false ->
                 jobs w = [] /\ Forall (fun x => isPipeline x = false) (trace w)).
  { induction Hw as [|w now e Hw IH]; intros Hl.
    - split; constructor.
    - assert (Hbefore : loaded (ui w) = false).
      { rewrite step_loaded in Hl. destruct e; try exact Hl. discriminate. }
      destruct (IH Hbefore) as [Hj Ht]. now apply step_unloaded. }
  intros Hl. destruct (Hinv Hl) as [Hj Ht].
  split; [exact Hj|]. split; [now apply Forall_forall|]. split.
  - unfold clickable, encodeButton. cbn [loading disabled].
    rewrite Hl. cbn [negb]. now rewrite orb_true_r, andb_false_r.
  - intros now message. now rewrite step_loaded.
Qed.

(** The load fails, the user picks a file and clicks all the same. *)
Lemma nothing_before_engine_loaded_example :
  trace (run [(ofZ 0, FFmpegLoadFailed "network"); (ofZ 1, FileSelect (Some clip));
              (ofZ 2, EncodeClick)] initialWorld)
  = [ConsoleError "Failed to load FFmpeg:"; NotificationShow "加载 FFmpeg 失败" "network" "red"]
  /\ jobs (run [(ofZ 0, FFmpegLoadFailed "network"); (ofZ 1, FileSelect (Some clip));
                (ofZ 2, EncodeClick)] initialWorld) = [].
Proof.
  assert (Hr : reachable (run [(ofZ 0, FFmpegLoadFailed "network");
                               (ofZ 1, FileSelect (Some clip));
                               (ofZ 2, EncodeClick)] initialWorld))
    by (apply reachable_run; constructor).
  destruct (nothing_before_engine_loaded _ Hr eq_refl) as (Hj & _).
  split; [reflexivity | exact Hj].
Defined.

(* ------------------------------------------------------------------ *)
(** ** The order of the pipeline *)

Lemma count_commit (p : Effect -> bool) (prev : State) (now : number) (w : World) :
  (forall url, p (RevokeObjectURL url) = false) ->
  count p (commit prev now w) = count p w.
Proof.
  intros Hp. unfold count. rewrite commit_trace, filter_app, length_app.
  split_ifs; cbn [filter]; rewrite ?Hp; cbn [List.length]; lia.
Qed.

Ltac count_simpl :=
  unfold stageOrder, stageAhead, count in *; world_simpl;
  rewrite ?filter_app, ?length_app;
  cbn [filter isFetch isWrite isRead isExec isResult List.length awaiting
       String.eqb Ascii.eqb Bool.eqb].

Lemma resume_stage (j : Job) (r : Settled) (w : World) :
  stageOrder w -> stageAhead j w ->
  stageOrder (fst (resume j r w))
  /\ match snd (resume j r w) with
     | Some j' => stageAhead j' (fst (resume j r w))
     | None => True
     end.
Proof.
  intros Ho Ha. unfold resume, catchFinally. unfold stageAhead in Ha.
  destruct r as [value|reason]; [destruct (awaiting j) eqn:Ea|]; cbn [fst snd].
  2: { destruct (if isCustom (preset j) then Some (customResolution (closure j))
                 else resolution (preset j)) as [res|];
         [destruct (truthy res)|]; cbn [fst snd]; count_simpl; lia. }
  all: count_simpl; lia.
Qed.

Lemma handleEncode_stage (c : State) (w : World) :
  stageOrder w -> jobs w = [] ->
  stageOrder (handleEncode c w)
  /\ (forall j, jobs (handleEncode c w) = [j] -> stageAhead j (handleEncode c w)).
Proof.
  intros Ho Hj. unfold handleEncode.
  destruct (file c); [|split; [exact Ho | intros j; rewrite Hj; discriminate]].
  destruct (negb (loaded c)); [split; [exact Ho | intros j; rewrite Hj; discriminate]|].
  destruct (find _ PRESETS); split_ifs; world_simpl; rewrite ?Hj; cbn [app];
    (split; [|intros j Hjob; try discriminate Hjob; injection Hjob as <-]);
    count_simpl; lia.
Qed.

Lemma step_stage (now : number) (e : Event) (w : World) :
  Shape w ->
  stageOrder w /\ (forall j, jobs w = [j] -> stageAhead j w) ->
  stageOrder (step now e w) /\ (forall j, jobs (step now e w) = [j] -> stageAhead j (step now e w)).
Proof.
  intros Hs [Ho Ha]. unfold step.
  assert (Hcommit : forall w1,
            stageOrder w1 /\ (forall j, jobs w1 = [j] -> stageAhead j w1) ->
            stageOrder (commit (ui w) now w1)
            /\ (forall j, jobs (commit (ui w) now w1) = [j] ->
                          stageAhead j (commit (ui w) now w1))).
  { intros w1 [Ho1 Ha1]. rewrite commit_jobs. unfold stageOrder, stageAhead in *.
    rewrite !count_commit by reflexivity. split; [exact Ho1|].
    intros j Hj. specialize (Ha1 j Hj). destruct (awaiting j);
      rewrite ?count_commit by reflexivity; exact Ha1. }
  apply Hcommit. clear Hcommit.
  destruct e; cbn [handle]; unfold handleFileSelect.
  all: try solve [ split_ifs;
                   (split; [|intros j Hj; world_simpl; specialize (Ha j Hj);
                             unfold stageAhead in *; destruct (awaiting j)]);
                   count_simpl; lia ].
  - (* PromiseSettled *)
    unfold settle.
    destruct Hs as [H1 H2 H3 H4 | n H1 H2 H3 H4 | j0 H1 H2 H3 H4]; rewrite H2.
    + destruct i; cbn [nth_error]; split; [exact Ho | intros j; rewrite H2; discriminate
                                          | exact Ho | intros j; rewrite H2; discriminate].
    + destruct i; cbn [nth_error]; split; [exact Ho | intros j; rewrite H2; discriminate
                                          | exact Ho | intros j; rewrite H2; discriminate].
    + destruct i as [|i]; cbn [nth_error removeNth];
        [|destruct i; cbn [nth_error]; (split; [exact Ho | exact Ha])].
      match goal with
      | |- context [resume j0 r ?w0] =>
          destruct (resume_stage j0 r w0 Ho (Ha j0 H2)) as [Ho' Ha'];
          pose proof (resume_jobs j0 r w0) as Hjobs;
          destruct (resume j0 r w0) as [w' [j'|]]
      end; cbn [fst snd jobs] in *.
      * split; [exact Ho'|]. world_simpl. rewrite Hjobs. cbn [app].
        intros j Hj. injection Hj as <-. exact Ha'.
      * split; [exact Ho'|]. rewrite Hjobs. discriminate.
  - (* EncodeClick *)
    destruct (clickable (encodeButton (ui w))) eqn:Ec; [|split; assumption].
    apply handleEncode_stage; [exact Ho|].
    destruct Hs as [H1 H2 H3 H4 | n H1 H2 H3 H4 | j0 H1 H2 H3 H4]; try exact H2.
    unfold clickable, encodeButton in Ec. cbn [loading disabled] in Ec.
    rewrite H1 in Ec. discriminate Ec.
Qed.

(** X7.  Over any history of the form, no stage of the pipeline has run
    more often than the stage before it: at most as many results were
    published as outputs were read, as many outputs read as commands
    executed, as many commands executed as inputs staged, and as many
    inputs staged as files fetched.  So the engine never executes without
    an input staged for that job, and nothing is published that was not
    read back after an execution. *)
Theorem pipeline_in_order (w : World) :
  reachable w ->
  (count isResult w <= count isRead w)%nat
  /\ (count isRead w <= count isExec w)%nat
  /\ (count isExec w <= count isWrite w)%nat
  /\ (count isWrite w <= count isFetch w)%nat.
Proof.
  intros Hw.
  assert (Hinv : stageOrder w /\ (forall j, jobs w = [j] -> stageAhead j w)).
  { induction Hw as [|w now e Hw IH].
    - split; [unfold stageOrder, count; cbn; lia | intros j Hj; discriminate Hj].
    - apply step_stage; [now apply reachable_shape | exact IH]. }
  destruct Hinv as [[[H1 H2] [H3 H4]] _]. auto.
Qed.

(** After the first encode each stage has run once. *)
Lemma pipeline_in_order_firstDone :
  count isResult firstDone = 1%nat /\ (count isResult firstDone <= count isFetch firstDone)%nat.
Proof.
  destruct (pipeline_in_order firstDone firstDone_reachable) as (H1 & H2 & H3 & H4).
  split; [vm_compute; reflexivity | lia].
Defined.

(* ------------------------------------------------------------------ *)
(** ** A job that succeeds *)

(** X8.  A job that [handleEncode] has checked and whose four promises are
    all fulfilled stages under [input.mp4] exactly the bytes fetched from
    the file, runs one command built from the settings captured at the
    trigger, reads [output.mp4], publishes exactly the bytes read under a
    fresh object URL, downloads from that URL and notifies success; it ends
    with that URL in [encodedVideoUrl] and alive, and [isEncoding] off. *)
Theorem fulfilled_job_publishes_output
    (j : Job) (fetched written executed output : list byte) (w : World) :
  validJob j ->
  awaiting j = AwaitFetchFile ->
  exists (w' : World) (r : number) (rate name : string),
    runJob j [Fulfilled fetched; Fulfilled written; Fulfilled executed; Fulfilled output] w
    = (w', None)
    /\ trace w'
       = (trace w ++
          [FFmpegWriteFile "input.mp4" fetched;
           FFmpegExec ["-i"; "input.mp4"; "-filter:v";
                       getScalingFilter (scalingStrategy (closure j))
                                        (backgroundColor (closure j)) r;
                       "-b:v"; rate; "-c:a"; "copy"; "output.mp4"];
           FFmpegReadFile "output.mp4";
           CreateObjectURL "video/mp4" output (blobUrl (urlSupply w));
           AnchorClick (blobUrl (urlSupply w)) name;
           NotificationShow "成功" "视频编码完成！" "green"])%list
    /\ encodedVideoUrl (ui w') = Some (blobUrl (urlSupply w))
    /\ In (mkObjectURL (blobUrl (urlSupply w)) "video/mp4") (liveUrls w')
    /\ isEncoding (ui w') = false.
Proof.
  intros (Hin & [f Hf] & Hcustom) Ha.
  assert (Hres : exists r, (if isCustom (preset j) then Some (customResolution (closure j))
                            else resolution (preset j)) = Some r
                           /\ truthy r = true).
  { destruct (isCustom (preset j)) eqn:Ec.
    - destruct (validate_none_in_range _ _ (Hcustom eq_refl)) as [Hr _].
      eexists. split; [reflexivity | exact (truthy_resolution _ (proj1 Hr))].
    - destruct (fixed_preset _ Hin Ec) as [[-> _]|[-> _]];
        eexists; split; reflexivity. }
  destruct Hres as (r & Hr & Htruthy).
  eexists. exists r. eexists. eexists.
  cbn [runJob]. unfold resume at 1. rewrite Ha. cbn [closure preset awaiting].
  unfold resume at 1. cbn [closure preset awaiting]. rewrite Hr, Htruthy.
  unfold resume at 1. cbn [closure preset awaiting].
  unfold resume. cbn [closure preset awaiting]. rewrite Hf.
  split; [reflexivity|]. world_simpl. split.
  - rewrite <- !app_assoc. reflexivity.
  - split; [reflexivity|]. split; [|reflexivity].
    apply in_or_app. right. left. reflexivity.
Qed.

(** The job of the custom form at 480 and 1 Mbps. *)
Lemma fulfilled_job_publishes_output_custom :
  exists (w' : World) (r : number) (rate name : string),
    runJob (mkJob (customForm (ofZ 480) (ofZ 1)) (mkPreset CUSTOM None None) AwaitFetchFile)
           [Fulfilled (fileData clip); Fulfilled []; Fulfilled []; Fulfilled [x03]]
           initialWorld
    = (w', None)
    /\ encodedVideoUrl (ui w') = Some "blob:0"
    /\ isEncoding (ui w') = false.
Proof.
  assert (Hvalid : validJob (mkJob (customForm (ofZ 480) (ofZ 1))
                                   (mkPreset CUSTOM None None) AwaitFetchFile)).
  { split; [right; right; left; reflexivity|]. split; [now exists clip|].
    intros _. reflexivity. }
  destruct (fulfilled_job_publishes_output _ (fileData clip) [] [] [x03] initialWorld
              Hvalid eq_refl)
    as (w' & r & rate & name & Hrun & _ & Hurl & _ & Hflag).
  exists w', r, rate, name. split; [exact Hrun|]. split; [exact Hurl | exact Hflag].
Defined.

(* ------------------------------------------------------------------ *)
(** ** The settings of a job in flight *)

Lemma encodingTimeEffect_settings (now : number) (s : State) :
  sameSettings (encodingTimeEffect now s) s.
Proof.
  unfold sameSettings, encodingTimeEffect.
  destruct (isEncoding s && gtb (progress s) (ofZ 0)).
  - cbn [progress setElapsedTime setStartTimeRef]. destruct (gtb (progress s) (ofZ 0));
      repeat split.
  - destruct (negb (isEncoding s)); repeat split.
Qed.

Lemma commit_settings (prev : State) (now : number) (w : World) :
  sameSettings (ui (commit prev now w)) (ui w).
Proof.
  rewrite commit_ui.
  destruct (JsNumber.eqb (progress prev) (progress (ui w))
            && Bool.eqb (isEncoding prev) (isEncoding (ui w)));
    [unfold sameSettings; repeat split | apply encodingTimeEffect_settings].
Qed.

Lemma sameSettings_trans (a b c : State) :
  sameSettings a b -> sameSettings b c -> sameSettings a c.
Proof. unfold sameSettings. intuition congruence. Qed.

Lemma resume_settings (j : Job) (r : Settled) (w : World) :
  sameSettings (ui (fst (resume j r w))) (ui w)
  /\ match snd (resume j r w) with
     | Some j' => closure j' = closure j
     | None => True
     end.
Proof.
  unfold resume, catchFinally, sameSettings.
  destruct r as [value|reason]; [destruct (awaiting j)|]; cbn [fst snd].
  2: { destruct (if isCustom (preset j) then Some (customResolution (closure j))
                 else resolution (preset j)) as [res|];
         [destruct (truthy res)|]; cbn [fst snd]; world_simpl; repeat split. }
  all: world_simpl; repeat split.
Qed.

Lemma handleEncode_settings (c : State) (w : World) :
  sameSettings (ui (handleEncode c w)) (ui w)
  /\ (forall j, In j (jobs (handleEncode c w)) -> In j (jobs w) \/ closure j = c).
Proof.
  unfold handleEncode, sameSettings.
  destruct (file c); [|repeat split; auto].
  destruct (negb (loaded c)); [repeat split; auto|].
  destruct (find _ PRESETS); split_ifs; world_simpl; repeat split; auto;
    intros j Hj; apply in_app_or in Hj; destruct Hj as [Hj|[<-|[]]]; auto.
Qed.

Lemma step_settings (now : number) (e : Event) (w : World) :
  Shape w ->
  (forall j, In j (jobs w) -> sameSettings (closure j) (ui w)) ->
  forall j, In j (jobs (step now e w)) -> sameSettings (closure j) (ui (step now e w)).
Proof.
  intros Hs Hinv j. unfold step. rewrite commit_jobs. intros Hj.
  apply (sameSettings_trans _ (ui (handle e w)));
    [|unfold sameSettings;
      destruct (commit_settings (ui w) now (handle e w)) as (?&?&?&?&?&?);
      repeat split; congruence].
  revert Hj.
  assert (Hidle : isEncoding (ui w) = false -> jobs w = []).
  { intros Hi. destruct Hs as [H1 H2 H3 H4 | n H1 H2 H3 H4 | j0 H1 H2 H3 H4];
      [exact H2 | exact H2 | congruence]. }
  destruct e; cbn [handle]; unfold handleFileSelect.
  all: try solve [ split_ifs; intros Hj; apply Hinv in Hj; exact Hj ].
  all: try solve [ destruct (isEncoding (ui w)) eqn:Ei;
                   [intros Hj; apply Hinv in Hj; exact Hj
                   |rewrite ?(Hidle eq_refl); split_ifs; world_simpl;
                    rewrite ?(Hidle eq_refl); intros []] ].
  - (* PromiseSettled *)
    unfold settle.
    destruct Hs as [H1 H2 H3 H4 | n H1 H2 H3 H4 | j0 H1 H2 H3 H4]; rewrite H2.
    + destruct i; cbn [nth_error]; rewrite H2; intros [].
    + destruct i; cbn [nth_error]; rewrite H2; intros [].
    + destruct i as [|i]; cbn [nth_error removeNth];
        [|destruct i; cbn [nth_error]; intros Hj; apply Hinv in Hj; exact Hj].
      match goal with
      | |- context [resume j0 r ?w0] =>
          destruct (resume_settings j0 r w0) as [Hui Hcl];
          pose proof (resume_jobs j0 r w0) as Hjobs;
          destruct (resume j0 r w0) as [w' [j'|]]
      end; cbn [fst snd jobs ui] in *; world_simpl; rewrite ?Hjobs; cbn [app];
        [|intros []].
      intros [<-|[]]. rewrite Hcl.
      apply (sameSettings_trans _ (ui w)); [apply Hinv; rewrite H2; now left|].
      unfold sameSettings in *. intuition congruence.
  - (* EncodeClick *)
    destruct (clickable (encodeButton (ui w))) eqn:Ec;
      [|intros Hj; apply Hinv in Hj; exact Hj].
    destruct (handleEncode_settings (ui w) w) as [Hui Hjobs].
    intros Hj. destruct (Hjobs j Hj) as [Hold| ->].
    + apply (sameSettings_trans _ (ui w)); [now apply Hinv|].
      unfold sameSettings in *. intuition congruence.
    + unfold sameSettings in *. intuition congruence.
Qed.

(** X9.  While a job is in flight the form holds the settings the job was
    started with: preset, custom resolution and bitrate, file, scaling
    strategy and background colour of the job's closure are those on
    display, none of them can be changed before the job ends. *)
Theorem job_settings_frozen (w : World) (j : Job) :
  reachable w ->
  In j (jobs w) ->
  selectedPreset (closure j) = selectedPreset (ui w)
  /\ customResolution (closure j) = customResolution (ui w)
  /\ customBitrate (closure j) = customBitrate (ui w)
  /\ file (closure j) = file (ui w)
  /\ scalingStrategy (closure j) = scalingStrategy (ui w)
  /\ backgroundColor (closure j) = backgroundColor (ui w).
Proof.
  intros Hw. revert j.
  induction Hw as [|w now e Hw IH]; intros j Hj.
  - destruct Hj.
  - apply (step_settings now e w (reachable_shape w Hw) IH j Hj).
Qed.

(** The user tries to switch strategy while [clip] is being encoded. *)
Lemma job_settings_frozen_inFlight :
  scalingStrategy (ui (step (ofZ 2500) (ScalingStrategyChange contain) inFlight)) = cover.
Proof.
  assert (Hr : reachable (step (ofZ 2500) (ScalingStrategyChange contain) inFlight))
    by (constructor; exact inFlight_reachable).
  destruct (jobs (step (ofZ 2500) (ScalingStrategyChange contain) inFlight))
    as [|j js] eqn:Ej; [vm_compute in Ej; discriminate|].
  destruct (job_settings_frozen _ j Hr) as (_ & _ & _ & _ & Hs & _);
    [rewrite Ej; now left|].
  rewrite <- Hs. vm_compute in Ej. injection Ej as <- _. reflexivity.
Defined.

(* ------------------------------------------------------------------ *)
(** ** The log *)

Lemma commit_logs (prev : State) (now : number) (w : World) :
  logs (ui (commit prev now w)) = logs (ui w).
Proof.
  rewrite commit_ui.
  destruct (JsNumber.eqb (progress prev) (progress (ui w))
            && Bool.eqb (isEncoding prev) (isEncoding (ui w))); [reflexivity|].
  unfold encodingTimeEffect. split_ifs; reflexivity.
Qed.

Lemma resume_logs (j : Job) (r : Settled) (w : World) :
  logs (ui (fst (resume j r w))) = logs (ui w).
Proof.
  unfold resume, catchFinally.
  destruct r as [value|reason]; [destruct (awaiting j)|]; split_ifs; reflexivity.
Qed.

(** X10.  The log holds the engine's lines in the order they were emitted:
    a run of log events appends exactly their messages, in order.  Apart
    from a log event, only the clear button -- which works during an
    encode too -- and a click on the encode button change the log. *)
Theorem logs_in_emission_order (w : World) (lines : list (number * string)) :
  logs (ui (run (map (fun l => (fst l, FFmpegLog (snd l))) lines) w))
  = (logs (ui w) ++ map snd lines)%list
  /\ (forall (now : number) (e : Event),
        (forall message, e <> FFmpegLog message) ->
        e <> ClearLogsClick -> e <> EncodeClick ->
        logs (ui (step now e w)) = logs (ui w))
  /\ (forall now : number, logs (ui (step now ClearLogsClick w)) = []).
Proof.
  split; [|split].
  - revert w. induction lines as [|[now message] lines IH]; intros w.
    + cbn. now rewrite app_nil_r.
    + cbn [map run fst snd]. rewrite IH. unfold step. rewrite commit_logs.
      cbn [handle]. world_simpl. now rewrite <- app_assoc.
  - intros now e Hlog Hclear Hclick. unfold step. rewrite commit_logs.
    destruct e; cbn [handle]; unfold handleFileSelect; try congruence;
      try (exfalso; eapply Hlog; reflexivity).
    all: try match goal with
             | |- context [createObjectURL] =>
                 destruct (logs (ui w)) eqn:El; [exact El | world_simpl; exact El]
             end.
    all: split_ifs; try reflexivity.
    unfold settle. destruct (nth_error (jobs w) i) as [j|]; [|reflexivity].
    match goal with
    | |- context [resume j r ?w0] =>
        pose proof (resume_logs j r w0) as Hr;
        destruct (resume j r w0) as [w' [j'|]]
    end; exact Hr.
  - intros now. unfold step. now rewrite commit_logs.
Qed.

(* ------------------------------------------------------------------ *)
(** ** The estimator between and during jobs *)

Lemma resume_time (j : Job) (r : Settled) (w : World) :
  startTimeRef (ui (fst (resume j r w))) = startTimeRef (ui w)
  /\ elapsedTime (ui (fst (resume j r w))) = elapsedTime (ui w)
  /\ estimatedTime (ui (fst (resume j r w))) = estimatedTime (ui w).
Proof.
  unfold resume, catchFinally.
  destruct r as [value|reason]; [destruct (awaiting j)|]; split_ifs; repeat split.
Qed.

(** No handler touches the cells of [useEncodingTime]. *)
Lemma handle_time (e : Event) (w : World) :
  startTimeRef (ui (handle e w)) = startTimeRef (ui w)
  /\ elapsedTime (ui (handle e w)) = elapsedTime (ui w)
  /\ estimatedTime (ui (handle e w)) = estimatedTime (ui w).
Proof.
  destruct e; cbn [handle]; unfold handleFileSelect; split_ifs; try (repeat split; fail).
  - unfold settle. destruct (nth_error (jobs w) i) as [j|]; [|repeat split].
    match goal with
    | |- context [resume j r ?w0] =>
        pose proof (resume_time j r w0) as Hr;
        destruct (resume j r w0) as [w' [j'|]]
    end; exact Hr.
  - unfold handleEncode.
    destruct (file (ui w)); [|repeat split].
    destruct (negb (loaded (ui w))); [repeat split|].
    destruct (find _ PRESETS); split_ifs; repeat split.
Qed.

(** X11.  Whenever no encode is running the estimator is at rest: no
    start timestamp, elapsed and estimate both 0 -- whatever progress the
    engine reports in the meantime. *)
Theorem estimator_rests_while_idle (w : World) :
  reachable w ->
  isEncoding (ui w) = false ->
  startTimeRef (ui w) = None
  /\ elapsedTime (ui w) = ofZ 0
  /\ estimatedTime (ui w) = ofZ 0.
Proof.
  induction 1 as [|w now e Hw IH]; intros Hidle.
  - repeat split.
  - unfold step in *.
    destruct (commit_keeps (ui w) now (handle e w)) as (Hflag & _).
    rewrite Hflag in Hidle. rewrite commit_ui.
    destruct (JsNumber.eqb (progress (ui w)) (progress (ui (handle e w)))
              && Bool.eqb (isEncoding (ui w)) (isEncoding (ui (handle e w)))) eqn:Edeps.
    + apply andb_true_iff in Edeps. destruct Edeps as [_ Eflag].
      apply Bool.eqb_prop in Eflag. rewrite Hidle in Eflag.
      destruct (handle_time e w) as (-> & -> & ->). now apply IH.
    + now apply encodingTimeEffect_inactive.
Qed.

(** After the first encode, with the engine's last progress still 1. *)
Lemma estimator_rests_while_idle_firstDone :
  progress (ui firstDone) = ofZ 1
  /\ startTimeRef (ui firstDone) = None
  /\ useEncodingTime (ui firstDone) = (ofZ 0, ofZ 0).
Proof.
  assert (Hidle : isEncoding (ui firstDone) = false) by (vm_compute; reflexivity).
  destruct (estimator_rests_while_idle firstDone firstDone_reachable Hidle)
    as (Hs & He & Hest).
  split; [vm_compute; reflexivity|]. split; [exact Hs|].
  unfold useEncodingTime. now rewrite He, Hest.
Defined.

(** X12.  For as long as an encode is running, the start timestamp, once
    captured, does not move: no event and no progress report changes it. *)
Theorem start_timestamp_kept (now : number) (e : Event) (w : World) (t : number) :
  isEncoding (ui w) = true ->
  isEncoding (ui (step now e w)) = true ->
  startTimeRef (ui w) = Some t ->
  startTimeRef (ui (step now e w)) = Some t.
Proof.
  intros Hbefore Hafter Hstart. unfold step in *.
  destruct (commit_keeps (ui w) now (handle e w)) as (Hflag & _).
  rewrite Hflag in Hafter. rewrite commit_ui.
  destruct (handle_time e w) as (Ht & _). rewrite Hstart in Ht.
  destruct (JsNumber.eqb (progress (ui w)) (progress (ui (handle e w)))
            && Bool.eqb (isEncoding (ui w)) (isEncoding (ui (handle e w))));
    [exact Ht|].
  unfold encodingTimeEffect. rewrite Hafter, Ht. cbn [andb negb].
  destruct (gtb (progress (ui (handle e w))) (ofZ 0)) eqn:Ep; [|exact Ht].
  cbn [progress setElapsedTime setStartTimeRef]. rewrite Ep. reflexivity.
Qed.

(** The second progress report of the first encode leaves the start where
    the first report put it. *)
Lemma start_timestamp_kept_second_report :
  startTimeRef (ui (step (ofZ 13000) (FFmpegProgress (Num 5 1))
                         (run (firstn 6 firstEncode) initialWorld)))
  = Some (ofZ 3000).
Proof.
  apply start_timestamp_kept; vm_compute; reflexivity.
Defined.

Lemma Qfloor_nonneg (x : Q) : (0 <= x)%Q -> 0 <= Qfloor x.
Proof. intros H. change 0 with (Qfloor 0). now apply Qfloor_resp_le. Qed.

(** X13.  The remaining time on display is never below one second.  And
    when the effect runs during an encode with the progress in (0, 1] and
    the clock not before the start timestamp, the elapsed time is not
    negative and the estimated total is not below it: the estimate never
    promises less than what has already passed. *)
Theorem remaining_time_bounds (now : number) (s : State) :
  (1 <= toQ (remainingTime s))%Q
  /\ (isEncoding s = true ->
      (0 < toQ (progress s) <= 1)%Q ->
      (toQ (match startTimeRef s with None => now | Some t => t end) <= toQ now)%Q ->
      (0 <= toQ (elapsedTime (encodingTimeEffect now s))
       <= toQ (estimatedTime (encodingTimeEffect now s)))%Q).
Proof.
  split.
  - unfold remainingTime. rewrite max_toQ. apply Q.le_max_r.
  - intros Hactive [Hp Hp1] Hclock.
    assert (Hgt : gtb (progress s) (ofZ 0) = true) by (apply ltb_toQ; exact Hp).
    set (start := match startTimeRef s with None => now | Some t => t end) in *.
    assert (Hel : elapsedTime (encodingTimeEffect now s)
                  = ofZ (Qfloor ((toQ now - toQ start) / 1000))).
    { unfold encodingTimeEffect. rewrite Hactive, Hgt. cbn [andb].
      cbn [progress setElapsedTime setStartTimeRef]. rewrite Hgt.
      world_simpl. fold start.
      rewrite floorDiv_toQ by reflexivity. f_equal. apply Qfloor_comp.
      rewrite sub_toQ. reflexivity. }
    assert (Hest : estimatedTime (encodingTimeEffect now s)
                   = ofZ (Qfloor (toQ (elapsedTime (encodingTimeEffect now s))
                                  / toQ (progress s)))).
    { rewrite Hel. unfold encodingTimeEffect. rewrite Hactive, Hgt. cbn [andb].
      cbn [progress setElapsedTime setStartTimeRef]. rewrite Hgt.
      world_simpl. fold start.
      rewrite (floorDiv_toQ _ (progress s)) by exact Hp. f_equal. apply Qfloor_comp.
      rewrite floorDiv_toQ by reflexivity.
      assert (Hq : (toQ (sub now start) / toQ (ofZ 1000)
                    == (toQ now - toQ start) / 1000)%Q)
        by (rewrite sub_toQ; reflexivity).
      rewrite (Qfloor_comp _ _ Hq). reflexivity. }
    rewrite Hest, Hel. rewrite !toQ_ofZ.
    set (elapsed := Qfloor ((toQ now - toQ start) / 1000)).
    assert (He : 0 <= elapsed).
    { apply Qfloor_nonneg. apply Qle_shift_div_l; [reflexivity|].
      rewrite Qmult_0_l. now apply (proj1 (Qle_minus_iff _ _)). }
    split.
    + change 0%Q with (inject_Z 0). rewrite <- Zle_Qle. exact He.
    + rewrite <- Zle_Qle. rewrite <- (Qfloor_Z elapsed) at 1.
      apply Qfloor_resp_le. apply Qle_shift_div_l; [exact Hp|].
      rewrite <- (Qmult_1_r (inject_Z elapsed)) at 2.
      rewrite (Qmult_comm (inject_Z elapsed) (toQ (progress s))).
      rewrite (Qmult_comm (inject_Z elapsed) 1).
      apply Qmult_le_compat_r; [exact Hp1|].
      change 0%Q with (inject_Z 0). rewrite <- Zle_Qle. exact He.
Qed.

(** Three quarters done after 30 s: 40 s in all. *)
Lemma remaining_time_bounds_example :
  let s := setStartTimeRef (Some (ofZ 5000))
             (setProgress (Num 75 2) (setIsEncoding true initialState)) in
  (0 <= toQ (elapsedTime (encodingTimeEffect (ofZ 35000) s))
   <= toQ (estimatedTime (encodingTimeEffect (ofZ 35000) s)))%Q
  /\ useEncodingTime (encodingTimeEffect (ofZ 35000) s) = (ofZ 30, ofZ 40).
Proof.
  intros s.
  destruct (remaining_time_bounds (ofZ 35000) s) as [_ H].
  split; [|reflexivity].
  apply H.
  - reflexivity.
  - split; [unfold Qlt | unfold Qle]; simpl; lia.
  - unfold Qle. simpl. lia.
Defined.

(* ------------------------------------------------------------------ *)
(** ** The beforeunload listener *)

Lemma removeEventListener_own (h : nat) : removeEventListener h [h] = [].
Proof. unfold removeEventListener. cbn. now rewrite Nat.eqb_refl. Qed.

(** What one run of the effect leaves, whether or not the previous run had
    registered its function. *)
Lemma beforeUnloadEffect_run (isEncoding was : bool) (h : nat) :
  beforeUnloadEffect isEncoding (mkWindow (if was then [h] else []) (Some h) (S h))
  = mkWindow (if isEncoding then [S h] else []) (Some (S h)) (S (S h)).
Proof.
  unfold beforeUnloadEffect. cbn [mountedHandler listeners handlerSupply].
  assert (Hclean : removeEventListener h (if was then [h] else []) = []).
  { destruct was; [apply removeEventListener_own | reflexivity]. }
  rewrite Hclean. destruct isEncoding; reflexivity.
Qed.

Lemma pageReachable_window (p : World * Window) :
  pageReachable p ->
  reachable (fst p)
  /\ exists h, snd p = mkWindow (if isEncoding (ui (fst p)) then [h] else []) (Some h) (S h).
Proof.
  induction 1 as [|[w win] now e _ [Hw [h Hwin]]].
  - split; [constructor|]. exists 0%nat. reflexivity.
  - cbn [fst snd] in *. split; [now constructor|]. subst win.
    unfold pageStep. cbn [fst snd].
    destruct (Bool.eqb (isEncoding (ui w)) (isEncoding (ui (step now e w)))) eqn:Esame.
    + apply Bool.eqb_prop in Esame. rewrite <- Esame. now exists h.
    + rewrite beforeUnloadEffect_run. now exists (S h).
Qed.

(** X14.  The window has a [beforeunload] listener exactly while an encode
    is running, which is exactly while a job is in flight, and never more
    than one: the listeners of earlier encodes do not pile up. *)
Theorem beforeunload_guard_while_encoding (p : World * Window) :
  pageReachable p ->
  (List.length (listeners (snd p)) <= 1)%nat
  /\ (listeners (snd p) <> [] <-> isEncoding (ui (fst p)) = true)
  /\ (listeners (snd p) <> [] <-> jobs (fst p) <> []).
Proof.
  intros Hp. destruct (pageReachable_window p Hp) as [Hw [h Hwin]].
  rewrite Hwin. cbn [listeners].
  pose proof (reachable_shape _ Hw) as Hs.
  destruct Hs as [H1 H2 H3 H4 | n H1 H2 H3 H4 | j H1 H2 H3 H4]; rewrite H1, H2;
    cbn [List.length]; (split; [lia|]); split; split; intros H; congruence.
Qed.

(** One listener during the first encode, none after it. *)
Lemma beforeunload_guard_first_encode :
  listeners (snd (fold_left (fun p ne => pageStep (fst ne) (snd ne) p)
                            (firstn 3 firstEncode) mounted)) <> []
  /\ (List.length (listeners (snd (fold_left (fun p ne => pageStep (fst ne) (snd ne) p)
                                             firstEncode mounted))) <= 1)%nat.
Proof.
  assert (Hreach : forall es p, pageReachable p ->
            pageReachable (fold_left (fun p ne => pageStep (fst ne) (snd ne) p) es p)).
  { induction es as [|[now e] es IH]; intros p Hp; cbn; [exact Hp|].
    apply IH. now constructor. }
  split.
  - destruct (beforeunload_guard_while_encoding _
                (Hreach (firstn 3 firstEncode) mounted pageReachable_mounted))
      as (_ & Hiff & _).
    apply Hiff. vm_compute. reflexivity.
  - apply (beforeunload_guard_while_encoding _
             (Hreach firstEncode mounted pageReachable_mounted)).
Defined.

(* ------------------------------------------------------------------ *)
(** ** Choosing a file and downloading again *)

(** A render that changes none of the dependencies runs no effect. *)
Lemma commit_noop (prev : State) (now : number) (w : World) :
  progress (ui w) = progress prev ->
  isEncoding (ui w) = isEncoding prev ->
  encodedVideoUrl (ui w) = encodedVideoUrl prev ->
  commit prev now w = w.
Proof.
  intros Hp Hi Hu. unfold commit.
  rewrite Hp, Hi, number_eqb_refl, Bool.eqb_reflx. cbn [andb].
  now rewrite Hu, optStringEqb_refl.
Qed.

(** X15.  The download-again button changes nothing of the state and
    leaves every object URL as it is.  When it downloads at all -- a result
    exists, a file is chosen, no encode is running -- it downloads from the
    URL of the current result, which is alive, under the name [encoded_]
    followed by the whole file name, its original extension included. *)
Theorem redownload_from_live_url (w : World) (now : number) :
  reachable w ->
  ui (step now RedownloadClick w) = ui w
  /\ jobs (step now RedownloadClick w) = jobs w
  /\ liveUrls (step now RedownloadClick w) = liveUrls w
  /\ (trace (step now RedownloadClick w) = trace w
      \/ exists (u : string) (f : File),
           encodedVideoUrl (ui w) = Some u /\ file (ui w) = Some f
           /\ isEncoding (ui w) = false
           /\ In u (resultUrls w)
           /\ trace (step now RedownloadClick w)
              = (trace w ++ [AnchorClick u ("encoded_" ++ fileName f)])%list).
Proof.
  intros Hw. pose proof (reachable_shape w Hw) as Hs.
  assert (Hui : ui (handle RedownloadClick w) = ui w).
  { cbn [handle]. destruct (encodedVideoUrl (ui w)) as [[|x u]|]; try reflexivity.
    destruct (file (ui w)); try reflexivity.
    destruct (isEncoding (ui w)); reflexivity. }
  assert (Hstep : step now RedownloadClick w = handle RedownloadClick w).
  { unfold step. apply commit_noop; now rewrite Hui. }
  rewrite Hstep. cbn [handle].
  destruct Hs as [H1 H2 H3 H4 | n H1 H2 H3 H4 | j H1 H2 H3 H4]; rewrite H1, H3;
    try (repeat split; now left).
  change (blobUrl n) with (String "b" ("lob:" ++ digits (Z.of_nat n))).
  destruct (file (ui w)) as [f|] eqn:Ef; [|repeat split; now left].
  world_simpl. repeat split. right.
  exists (blobUrl n), f. repeat split; try assumption.
  rewrite H4. now left.
Qed.

(** After the first encode of [clip.final.mov]. *)
Lemma redownload_from_live_url_firstDone :
  trace (step (ofZ 40000) RedownloadClick firstDone)
  = (trace firstDone ++ [AnchorClick "blob:0" "encoded_clip.final.mov"])%list
  /\ liveUrls (step (ofZ 40000) RedownloadClick firstDone) = liveUrls firstDone.
Proof.
  destruct (redownload_from_live_url firstDone (ofZ 40000) firstDone_reachable)
    as (_ & _ & Hlive & _).
  split; [vm_compute; reflexivity | exact Hlive].
Defined.

(** X16.  Choosing a file while an encode runs changes nothing.  Otherwise
    the chosen file replaces the previous one and the previous result, if
    there was one, is dropped with it: [encodedVideoUrl] is null, its
    object URL has been revoked and no result URL is alive, so the
    download-again button cannot offer the old result under the new file's
    name. *)
Theorem file_select_drops_result (w : World) (now : number) (selectedFile : option File) :
  reachable w ->
  (isEncoding (ui w) = true -> step now (FileSelect selectedFile) w = w)
  /\ (isEncoding (ui w) = false ->
      file (ui (step now (FileSelect selectedFile) w)) = selectedFile
      /\ encodedVideoUrl (ui (step now (FileSelect selectedFile) w)) = None
      /\ resultUrls (step now (FileSelect selectedFile) w) = []
      /\ (forall u, encodedVideoUrl (ui w) = Some u ->
                    In (RevokeObjectURL u) (trace (step now (FileSelect selectedFile) w)))).
Proof.
  intros Hw. pose proof (reachable_shape w Hw) as Hs. split.
  - intros Hbusy. unfold step. cbn [handle]. rewrite Hbusy.
    apply commit_noop; reflexivity.
  - intros Hidle.
    pose proof (step_shape now (FileSelect selectedFile) w Hs) as Hs'.
    unfold step in *.
    destruct (commit_keeps (ui w) now (handle (FileSelect selectedFile) w))
      as (_ & _ & Hurl & Hfile & _).
    assert (Hnew : encodedVideoUrl (ui (handle (FileSelect selectedFile) w)) = None
                   /\ file (ui (handle (FileSelect selectedFile) w)) = selectedFile).
    { cbn [handle]. rewrite Hidle. unfold handleFileSelect.
      destruct Hs as [H1 H2 H3 H4 | n H1 H2 H3 H4 | j H1 H2 H3 H4]; try congruence;
        rewrite H3, ?truthy_blobUrl; cbn [truthyStr]; world_simpl; rewrite ?H3;
        split; reflexivity. }
    destruct Hnew as [Hnone Hsel].
    rewrite Hfile, Hurl, Hnone, Hsel.
    split; [reflexivity|]. split; [reflexivity|]. split.
    + destruct Hs' as [_ _ _ H4' | m _ _ H3' _ | j _ _ _ H4']; try exact H4'.
      rewrite Hurl, Hnone in H3'. discriminate.
    + intros u Hu. rewrite commit_trace, Hu, Hnone. cbn [optStringEqb].
      destruct Hs as [H1 H2 H3 H4 | n H1 H2 H3 H4 | j H1 H2 H3 H4]; try congruence.
      rewrite H3 in Hu. injection Hu as <-.
      apply in_or_app. right. left. reflexivity.
Qed.

(** After the first encode the user picks another file. *)
Lemma file_select_drops_result_firstDone :
  encodedVideoUrl (ui (step (ofZ 40000) (FileSelect (Some (mkFile "other.mov" []))) firstDone))
  = None
  /\ In (RevokeObjectURL "blob:0")
        (trace (step (ofZ 40000) (FileSelect (Some (mkFile "other.mov" []))) firstDone)).
Proof.
  destruct (file_select_drops_result firstDone (ofZ 40000) (Some (mkFile "other.mov" []))
              firstDone_reachable) as [_ Hidle].
  assert (Hi : isEncoding (ui firstDone) = false) by (vm_compute; reflexivity).
  assert (Hu : encodedVideoUrl (ui firstDone) = Some "blob:0") by (vm_compute; reflexivity).
  destruct (Hidle Hi) as (_ & Hnone & _ & Hrevoked).
  split; [exact Hnone | exact (Hrevoked _ Hu)].
Defined.

(* ------------------------------------------------------------------ *)
(** ** The object URLs of the log downloads *)

Lemma blobUrl_inj (a b : nat) : blobUrl a = blobUrl b -> a = b.
Proof.
  unfold blobUrl. cbn [append]. intros H. injection H as H.
  apply digits_inj in H; lia.
Qed.

Lemma commit_urlSupply (prev : State) (now : number) (w : World) :
  urlSupply (commit prev now w) = urlSupply w.
Proof.
  unfold commit.
  repeat match goal with
         | |- context [if ?b then _ else _] => destruct b
         | |- context [match encodedVideoUrl prev with _ => _ end] =>
             destruct (encodedVideoUrl prev)
         end; reflexivity.
Qed.

Ltac log_count :=
  unfold count; world_simpl; rewrite ?filter_app, ?length_app;
  cbn [filter isLogDownload List.length String.eqb Ascii.eqb Bool.eqb]; try lia.

(** What a handler does to the object URLs: nothing; or it publishes a
    result, which only a job does and only when no result is on offer; or
    it makes the URL of a log download. *)
Lemma handle_urls (e : Event) (w : World) :
  Shape w ->
  (liveUrls (handle e w) = liveUrls w
   /\ urlSupply (handle e w) = urlSupply w
   /\ count isLogDownload (handle e w) = count isLogDownload w
   /\ (encodedVideoUrl (ui (handle e w)) = encodedVideoUrl (ui w)
       \/ encodedVideoUrl (ui (handle e w)) = None))
  \/ (encodedVideoUrl (ui w) = None
      /\ liveUrls (handle e w)
         = (liveUrls w ++ [mkObjectURL (blobUrl (urlSupply w)) "video/mp4"])%list
      /\ urlSupply (handle e w) = S (urlSupply w)
      /\ count isLogDownload (handle e w) = count isLogDownload w
      /\ encodedVideoUrl (ui (handle e w)) = Some (blobUrl (urlSupply w)))
  \/ (liveUrls (handle e w)
      = (liveUrls w ++ [mkObjectURL (blobUrl (urlSupply w)) "text/plain"])%list
      /\ urlSupply (handle e w) = S (urlSupply w)
      /\ count isLogDownload (handle e w) = S (count isLogDownload w)
      /\ encodedVideoUrl (ui (handle e w)) = encodedVideoUrl (ui w)).
Proof.
  intros Hs.
  destruct e; cbn [handle]; unfold handleFileSelect.
  all: try solve [ left; split_ifs; world_simpl; repeat split; auto; log_count ].
  - (* PromiseSettled *)
    unfold settle.
    destruct Hs as [H1 H2 H3 H4 | n H1 H2 H3 H4 | j H1 H2 H3 H4]; rewrite H2.
    + left. destruct i; cbn [nth_error]; repeat split; auto.
    + left. destruct i; cbn [nth_error]; repeat split; auto.
    + destruct i as [|i]; cbn [nth_error removeNth];
        [|left; destruct i; cbn [nth_error]; repeat split; auto].
      unfold resume, catchFinally.
      destruct r as [value|reason]; [destruct (awaiting j)|].
      4: { right. left. world_simpl. repeat split; auto; log_count. }
      2: { destruct (if isCustom (preset j) then Some (customResolution (closure j))
                     else resolution (preset j)) as [res|];
             [destruct (truthy res)|]; left; world_simpl; repeat split; auto; log_count. }
      all: left; world_simpl; repeat split; auto; log_count.
  - (* EncodeClick *)
    left. destruct (clickable (encodeButton (ui w))); [|repeat split; auto].
    unfold handleEncode.
    destruct (file (ui w)); [|repeat split; auto].
    destruct (negb (loaded (ui w))); [repeat split; auto|].
    destruct (find _ PRESETS); split_ifs; world_simpl; repeat split; auto; log_count.
  - (* RedownloadClick *)
    left.
    destruct (encodedVideoUrl (ui w)) as [[|x u]|] eqn:Eu; cbn beta iota;
      try solve [repeat split; auto].
    destruct (file (ui w)); cbn beta iota; try solve [repeat split; auto].
    destruct (isEncoding (ui w)); cbn beta iota; try solve [repeat split; auto].
    world_simpl. repeat split; auto; log_count.
  - (* LogsDownloadClick *)
    destruct (logs (ui w)) as [|l ls]; [left; repeat split; auto|].
    right. right. world_simpl. repeat split; log_count.
Qed.

Lemma filter_log_revoked (u : string) (live : list ObjectURL) :
  (forall o, In o live -> isLogUrl o = true -> href o <> u) ->
  filter isLogUrl (filter (fun o => negb (String.eqb (href o) u)) live)
  = filter isLogUrl live.
Proof.
  induction live as [|o live IH]; intros H; [reflexivity|].
  cbn [filter].
  destruct (isLogUrl o) eqn:Eo.
  - assert (Hne : String.eqb (href o) u = false)
      by (apply String.eqb_neq, H; [now left | exact Eo]).
    rewrite Hne. cbn [negb filter]. rewrite Eo. f_equal.
    apply IH. intros o' Ho'. apply H. now right.
  - destruct (negb (String.eqb (href o) u)); cbn [filter]; rewrite ?Eo;
      apply IH; intros o' Ho'; apply H; now right.
Qed.

Lemma step_log_urls (now : number) (e : Event) (w : World) :
  Shape w ->
  urlsApart w ->
  List.length (filter isLogUrl (liveUrls w)) = count isLogDownload w ->
  urlsApart (step now e w)
  /\ List.length (filter isLogUrl (liveUrls (step now e w)))
     = count isLogDownload (step now e w).
Proof.
  intros Hs [Hlive Hurl] Hcount. unfold step, urlsApart.
  rewrite commit_liveUrls, commit_urlSupply, count_commit by reflexivity.
  destruct (commit_keeps (ui w) now (handle e w)) as (_ & _ & -> & _).
  assert (Hweak : forall o, In o (liveUrls w) ->
            exists k, (k < S (urlSupply w))%nat /\ href o = blobUrl k).
  { intros o Ho. destruct (Hlive o Ho) as (k & Hk & Hh). exists k. split; [lia | exact Hh]. }
  destruct (handle_urls e w Hs)
    as [(Hl & Hn & Hc & [Hu|Hu]) | [(Hnone & Hl & Hn & Hc & Hu) | (Hl & Hn & Hc & Hu)]];
    rewrite Hl, Hn, Hc, Hu.
  - (* nothing happens to the URLs *)
    rewrite released_same. split; [split; assumption | exact Hcount].
  - (* the result, if any, is dropped *)
    destruct (encodedVideoUrl (ui w)) as [u|] eqn:Eu;
      [|rewrite released_same; split; [split; [assumption | discriminate] | exact Hcount]].
    destruct (Hurl u eq_refl) as (n & Hn' & -> & Hapart).
    unfold released. cbn [optStringEqb]. rewrite truthy_blobUrl.
    split; [split; [|discriminate]|].
    + intros o Ho. apply filter_In in Ho. now apply Hlive.
    + rewrite filter_log_revoked by exact Hapart. exact Hcount.
  - (* a result is published *)
    rewrite Hnone, released_none. split; [split|].
    + intros o Ho. apply in_app_or in Ho. destruct Ho as [Ho|[<-|[]]];
        [now apply Hweak | exists (urlSupply w); split; [lia | reflexivity]].
    + intros u Hu'. injection Hu' as <-. exists (urlSupply w).
      split; [lia|]. split; [reflexivity|].
      intros o Ho Hlog. apply in_app_or in Ho. destruct Ho as [Ho|[<-|[]]];
        [|discriminate Hlog].
      destruct (Hlive o Ho) as (k & Hk & ->). intros Heq.
      apply blobUrl_inj in Heq. lia.
    + rewrite filter_app, length_app. cbn. lia.
  - (* a log is downloaded *)
    rewrite released_same. split; [split|].
    + intros o Ho. apply in_app_or in Ho. destruct Ho as [Ho|[<-|[]]];
        [now apply Hweak | exists (urlSupply w); split; [lia | reflexivity]].
    + intros u Hu'. destruct (Hurl u Hu') as (n & Hn' & -> & Hapart).
      exists n. split; [lia|]. split; [reflexivity|].
      intros o Ho Hlog. apply in_app_or in Ho. destruct Ho as [Ho|[<-|[]]];
        [now apply Hapart|].
      cbn [href]. intros Heq. apply blobUrl_inj in Heq. lia.
    + rewrite filter_app, length_app. cbn. lia.
Qed.

(** X17.  The object URL made for a log download is never revoked: in
    every state the form's events can reach, as many [text/plain] object
    URLs are alive as logs have been downloaded. *)
Theorem log_urls_never_revoked (w : World) :
  reachable w ->
  List.length (filter isLogUrl (liveUrls w)) = count isLogDownload w.
Proof.
  intros Hw.
  assert (Hinv : urlsApart w
                 /\ List.length (filter isLogUrl (liveUrls w)) = count isLogDownload w).
  { induction Hw as [|w now e Hw [Hu Hc]].
    - split; [split; [intros o [] | discriminate] | reflexivity].
    - apply step_log_urls; [now apply reachable_shape | exact Hu | exact Hc]. }
  exact (proj2 Hinv).
Qed.

(** Two log downloads around an encode: both URLs outlive the result,
    which is revoked when the file is taken away. *)
Lemma log_urls_never_revoked_logsKept :
  List.length (filter isLogUrl (liveUrls logsKept)) = 2%nat
  /\ List.length (liveUrls logsKept) = 2%nat.
Proof.
  assert (Hw : reachable logsKept) by (apply reachable_run; constructor).
  rewrite (log_urls_never_revoked logsKept Hw).
  split; vm_compute; reflexivity.
Defined.

(* ------------------------------------------------------------------ *)
(** ** A click that validation refuses *)

Lemma validate_message (r b : number) (m : string) :
  validateCustomSettings r b = Some m -> truthyStr (Some m) = true.
Proof.
  unfold validateCustomSettings.
  destruct (ltb r MIN_RESOLUTION || gtb r MAX_RESOLUTION); [intros [= <-]; reflexivity|].
  destruct (ltb b MIN_BITRATE || gtb b MAX_BITRATE); [intros [= <-]; reflexivity|].
  discriminate.
Qed.

Lemma handleEncode_refused (c : State) (w : World) (f : File) (m : string) :
  file c = Some f -> loaded c = true -> selectedPreset c = CUSTOM ->
  validateCustomSettings (customResolution c) (customBitrate c) = Some m ->
  handleEncode c w
  = emit (NotificationShow "错误" m "red")
         (if truthyStr (encodedVideoUrl c) then update (setEncodedVideoUrl None) w else w).
Proof.
  intros Hfile Hloaded Hpreset Hval.
  unfold handleEncode. rewrite Hfile, Hloaded, Hpreset.
  change (find (fun p => String.eqb (name p) CUSTOM) PRESETS)
    with (Some (mkPreset CUSTOM None None)).
  cbv beta iota zeta. change (isCustom (mkPreset CUSTOM None None)) with true.
  cbv iota. rewrite Hval, (validate_message _ _ _ Hval). reflexivity.
Qed.

(** X18.  A click on the encode button that the validation of the custom
    settings refuses starts no job and shows the error, but the result on
    offer is gone all the same: its URL is cleared and revoked. *)
Theorem refused_click_drops_result (w : World) (now : number) (m : string) :
  reachable w ->
  clickable (encodeButton (ui w)) = true ->
  selectedPreset (ui w) = CUSTOM ->
  validateCustomSettings (customResolution (ui w)) (customBitrate (ui w)) = Some m ->
  jobs (step now EncodeClick w) = []
  /\ isEncoding (ui (step now EncodeClick w)) = false
  /\ In (NotificationShow "错误" m "red") (trace (step now EncodeClick w))
  /\ encodedVideoUrl (ui (step now EncodeClick w)) = None
  /\ resultUrls (step now EncodeClick w) = []
  /\ (forall u, encodedVideoUrl (ui w) = Some u ->
                In (RevokeObjectURL u) (trace (step now EncodeClick w))).
Proof.
  intros Hw Hclick Hcustom Hval.
  pose proof (reachable_shape w Hw) as Hs.
  pose proof (step_shape now EncodeClick w Hs) as Hs'.
  unfold clickable, encodeButton in Hclick. cbn [loading disabled] in Hclick.
  apply andb_prop in Hclick. destruct Hclick as [Hidle Hable].
  apply negb_true_iff in Hidle. apply negb_true_iff, orb_false_elim in Hable.
  destruct Hable as [Hfile Hloaded]. apply negb_false_iff in Hloaded.
  destruct (file (ui w)) as [f|] eqn:Ef; [clear Hfile | discriminate].
  assert (Hh : handle EncodeClick w
               = emit (NotificationShow "错误" m "red")
                      (if truthyStr (encodedVideoUrl (ui w))
                       then update (setEncodedVideoUrl None) w else w)).
  { cbn [handle]. unfold clickable, encodeButton. cbn [loading disabled].
    rewrite Hidle, Ef, Hloaded. cbn [negb andb orb].
    now apply (handleEncode_refused _ _ f). }
  unfold step in *.
  destruct (commit_keeps (ui w) now (handle EncodeClick w)) as (Hflag & _ & Hurl & _).
  assert (Hnew : encodedVideoUrl (ui (handle EncodeClick w)) = None
                 /\ isEncoding (ui (handle EncodeClick w)) = false
                 /\ jobs (handle EncodeClick w) = []
                 /\ In (NotificationShow "错误" m "red") (trace (handle EncodeClick w))).
  { rewrite Hh.
    destruct Hs as [H1 H2 H3 H4 | n H1 H2 H3 H4 | j H1 H2 H3 H4]; try congruence;
      rewrite H3, ?truthy_blobUrl; cbn [truthyStr]; world_simpl; rewrite ?H1, ?H2, ?H3;
      (repeat split; try reflexivity); apply in_or_app; right; left; reflexivity. }
  destruct Hnew as (Hnone & Hoff & Hjobs & Hnote).
  rewrite commit_jobs, Hflag, Hurl, Hnone, Hoff, Hjobs.
  split; [reflexivity|]. split; [reflexivity|]. split.
  { rewrite commit_trace. apply in_or_app. left. exact Hnote. }
  split; [reflexivity|]. split.
  - destruct Hs' as [_ _ _ H4' | k _ _ H3' _ | j _ _ _ H4']; try exact H4'.
    rewrite Hurl, Hnone in H3'. discriminate.
  - intros u Hu. rewrite commit_trace, Hu, Hnone. cbn [optStringEqb].
    destruct Hs as [H1 H2 H3 H4 | n H1 H2 H3 H4 | j H1 H2 H3 H4]; try congruence.
    rewrite H3 in Hu. injection Hu as <-.
    apply in_or_app. right. left. reflexivity.
Qed.

(** The click at 50 pixels is refused, and the first result is gone. *)
Lemma refused_click_drops_result_tooSmall :
  encodedVideoUrl (ui tooSmall) = Some "blob:0"
  /\ jobs (step (ofZ 27000) EncodeClick tooSmall) = []
  /\ encodedVideoUrl (ui (step (ofZ 27000) EncodeClick tooSmall)) = None
  /\ In (RevokeObjectURL "blob:0") (trace (step (ofZ 27000) EncodeClick tooSmall)).
Proof.
  assert (Hw : reachable tooSmall) by (do 2 apply reachable_step; exact firstDone_reachable).
  assert (Hclick : clickable (encodeButton (ui tooSmall)) = true) by (vm_compute; reflexivity).
  assert (Hcustom : selectedPreset (ui tooSmall) = CUSTOM) by (vm_compute; reflexivity).
  assert (Hval : validateCustomSettings (customResolution (ui tooSmall))
                                        (customBitrate (ui tooSmall))
                 = Some "分辨率必须在100到1920之间") by (vm_compute; reflexivity).
  assert (Hu : encodedVideoUrl (ui tooSmall) = Some "blob:0") by (vm_compute; reflexivity).
  destruct (refused_click_drops_result tooSmall (ofZ 27000) _ Hw Hclick Hcustom Hval)
    as (Hjobs & _ & _ & Hnone & _ & Hrevoked).
  split; [exact Hu|]. split; [exact Hjobs|]. split; [exact Hnone | exact (Hrevoked _ Hu)].
Defined.

(* ------------------------------------------------------------------ *)
(** ** A job that fails *)

Lemma reachable_settings (w : World) :
  reachable w -> forall j, In j (jobs w) -> sameSettings (closure j) (ui w).
Proof.
  induction 1 as [|w now e Hw IH]; intros j Hj.
  - destruct Hj.
  - apply (step_settings now e w (reachable_shape w Hw) IH j Hj).
Qed.

Lemma reachable_unloaded (w : World) :
  reachable w -> loaded (ui w) = false ->
  jobs w = [] /\ Forall (fun x => isPipeline x = false) (trace w).
Proof.
  induction 1 as [|w now e Hw IH]; intros Hl.
  - split; constructor.
  - assert (Hbefore : loaded (ui w) = false).
    { rewrite step_loaded in Hl. destruct e; try exact Hl. discriminate. }
    destruct (IH Hbefore) as [Hj Ht]. now apply step_unloaded.
Qed.

(** X19.  When an await of the job in flight rejects, whatever the stage,
    the job ends with the error logged and notified and nothing else done:
    no result is published, no object URL is made or revoked, the file is
    as it was, and the encode button takes a click again. *)
Theorem failed_job_can_be_retried (w : World) (now : number) (reason : string) :
  reachable w ->
  isEncoding (ui w) = true ->
  let w' := step now (PromiseSettled 0 (Rejected reason)) w in
  jobs w' = []
  /\ trace w' = (trace w ++ [ConsoleError "Failed to encode video:";
                             NotificationShow "错误" "视频编码失败" "red"])%list
  /\ encodedVideoUrl (ui w') = None
  /\ liveUrls w' = liveUrls w
  /\ file (ui w') = file (ui w)
  /\ clickable (encodeButton (ui w')) = true.
Proof.
  intros Hw Hbusy w'.
  pose proof (reachable_shape w Hw) as Hs.
  destruct Hs as [H1 H2 H3 H4 | n H1 H2 H3 H4 | j H1 H2 H3 H4]; try congruence.
  assert (Hj : In j (jobs w)) by (rewrite H2; now left).
  destruct (reachable_checked w Hw) as [Hvalid _].
  rewrite Forall_forall in Hvalid. destruct (Hvalid j Hj) as (_ & [f Hf] & _).
  destruct (reachable_settings w Hw j Hj) as (_ & _ & _ & Hfile & _).
  rewrite Hf in Hfile. symmetry in Hfile.
  assert (Hloaded : loaded (ui w) = true).
  { destruct (loaded (ui w)) eqn:El; [reflexivity|].
    destruct (reachable_unloaded w Hw El) as [Hnone _]. congruence. }
  assert (Hh : handle (PromiseSettled 0 (Rejected reason)) w
               = catchFinally (mkWorld (ui w) [] (liveUrls w) (urlSupply w) (trace w))).
  { cbn [handle]. unfold settle. rewrite H2. reflexivity. }
  subst w'. unfold step.
  destruct (commit_keeps (ui w) now (handle (PromiseSettled 0 (Rejected reason)) w))
    as (Hflag & _ & Hurl & Hfile' & Hloaded').
  rewrite commit_jobs, commit_trace, commit_liveUrls.
  unfold clickable, encodeButton. cbn [loading disabled].
  rewrite Hflag, Hurl, Hfile', Hloaded', Hh.
  unfold catchFinally. world_simpl.
  rewrite H3, Hfile, Hloaded. cbn [optStringEqb released negb andb orb].
  rewrite <- !app_assoc, app_nil_r.
  repeat split; reflexivity.
Qed.

(** The engine rejects the command of the first encode. *)
Lemma failed_job_can_be_retried_exec :
  jobs (step (ofZ 5000) (PromiseSettled 0 (Rejected "exit code 1")) execPending) = []
  /\ clickable
       (encodeButton
          (ui (step (ofZ 5000) (PromiseSettled 0 (Rejected "exit code 1")) execPending)))
     = true.
Proof.
  assert (Hw : reachable execPending) by (apply reachable_run; constructor).
  assert (Hbusy : isEncoding (ui execPending) = true) by (vm_compute; reflexivity).
  destruct (failed_job_can_be_retried execPending (ofZ 5000) "exit code 1" Hw Hbusy)
    as (Hjobs & _ & _ & _ & _ & Hclick).
  split; [exact Hjobs | exact Hclick].
Defined.
